(** * httpmock: the mock transport and the activation controller

    A shallow embedding of [transport.go]: the dispatch engine
    ([MockTransport.RoundTrip] and the registry operations) and the
    process-wide activation functions ([Activate], [ActivateNonDefault],
    [Deactivate]), followed by the properties the specification states
    about them. *)

From Stdlib Require Import ZArith Ascii String.
From stdpp Require Import base gmap strings list fin_maps.

Local Open Scope Z_scope.

(** ** The [strings] functions used by the dispatcher

    Go strings are byte sequences, as [string] is here.  [Index] returns
    a Go [int], [-1] when [substr] does not occur. *)

Module strings.

Fixpoint HasPrefix (s prefix : string) {struct prefix} : bool :=
  match prefix, s with
  | EmptyString, _ => true
  | String _ _, EmptyString => false
  | String a prefix', String b s' =>
      if Ascii.eqb a b then HasPrefix s' prefix' else false
  end.

Fixpoint Index (s substr : string) : Z :=
  if HasPrefix s substr then 0
  else match s with
       | EmptyString => -1
       | String _ s' =>
           let i := Index s' substr in
           if i <? 0 then -1 else i + 1
       end.

Definition Contains (s substr : string) : bool :=
  0 <=? Index s substr.

(** [s[:n]] and [s[n:]]. *)
Fixpoint slice_to (n : nat) (s : string) : string :=
  match n, s with
  | S n', String c s' => String c (slice_to n' s')
  | _, _ => EmptyString
  end.

Fixpoint slice_from (n : nat) (s : string) : string :=
  match n, s with
  | S n', String _ s' => slice_from n' s'
  | _, _ => s
  end.

(** The loop of [genSplit] for a separator that is not empty: cut at
    each occurrence of [sep] found by [Index], stop when there is
    none.  Go bounds the loop by [Count(s, sep)]; every round consumes
    at least one byte of [s], so [String.length s] rounds are as
    many as the loop can make. *)
Fixpoint genSplit (n : nat) (s sep : string) : list string :=
  match n with
  | O => [s]
  | S n' =>
      let m := Index s sep in
      if m <? 0 then [s]
      else slice_to (Z.to_nat m) s
             :: genSplit n' (slice_from (Z.to_nat m + String.length sep) s) sep
  end.

Definition Split (s sep : string) : list string :=
  genSplit (String.length s) s sep.

End strings.

(** ** Requests, responses, responders *)

(** What the dispatcher reads of an [*http.Request]: [req.Method] and
    the text [req.URL.String()]. *)
Record Request := { Method : string; URL_String : string }.

(** An [*http.Response] as far as this package is concerned: opaque data
    produced by responders and handed through. *)
Record Response := { StatusCode : Z; Body : string }.

Inductive error :=
| NoResponderFound
| OtherError (msg : string).

(** The pair of a response pointer and an [error] that a responder
    returns; either slot may be nil. *)
Definition Result : Type := option Response * option error.

(** A [Responder] value: [None] is the nil function value, the only
    thing a Go function value can be compared with. *)
Definition Responder : Type := option (Request → Result).

(** [r == nil]. *)
Definition is_nil (r : Responder) : bool :=
  match r with None => true | Some _ => false end.

Definition ConnectionFailure (_ : Request) : Result :=
  (None, Some NoResponderFound).

(** ** The mock transport *)

(** The fields [responders] and [noResponder].  The field [mu] is the
    mutex; it is not data, its use is recorded as [EvLock] and
    [EvUnlock] events of the method that runs. *)
Record MockTransport := {
  responders : gmap string Responder;
  noResponder : Responder
}.

Definition NewMockTransport : MockTransport :=
  {| responders := ∅; noResponder := None |}.

Inductive field := Fresponders | FnoResponder.

(** The three places of [RoundTrip] that call a responder: the one
    found in the registry, [ConnectionFailure], and [m.noResponder]. *)
Inductive callee := CResponder | CConnectionFailure | CNoResponder.

Inductive event :=
| EvLock
| EvUnlock
| EvRead (f : field)
| EvWrite (f : field)
| EvCall (c : callee).

(** Methods of [*MockTransport]: state passing over the receiver, with
    the log of what was done to the mutex and the fields. *)
Definition M (A : Type) : Type :=
  MockTransport → A * MockTransport * list event.

Definition ret {A} (a : A) : M A := λ m, (a, m, []).

Definition bind {A B} (c : M A) (k : A → M B) : M B :=
  λ m, let '(a, m1, t1) := c m in
       let '(b, m2, t2) := k a m1 in
       (b, m2, t1 ++ t2).

Declare Scope go_scope.
Delimit Scope go_scope with go.
Notation "x <~ c ;; k" := (bind c (λ x, k))
  (at level 100, c at next level, right associativity) : go_scope.
Notation "c ;;; k" := (bind c (λ _, k))
  (at level 100, right associativity) : go_scope.
Local Open Scope go_scope.

Definition emit (e : event) : M unit := λ m, (tt, m, [e]).

Definition Lock : M unit := emit EvLock.
Definition Unlock : M unit := emit EvUnlock.

Definition get_responders : M (gmap string Responder) :=
  λ m, (responders m, m, [EvRead Fresponders]).

Definition get_noResponder : M Responder :=
  λ m, (noResponder m, m, [EvRead FnoResponder]).

Definition set_responders (rs : gmap string Responder) : M unit :=
  λ m, (tt, {| responders := rs; noResponder := noResponder m |},
        [EvWrite Fresponders]).

Definition set_noResponder (r : Responder) : M unit :=
  λ m, (tt, {| responders := responders m; noResponder := r |},
        [EvWrite FnoResponder]).

(** The call of a responder, as far as it is modelled: a responder is
    a function of the request, and the call is logged.  What the code of
    a responder may do besides (keep a state of its own, call methods of
    the transport it is registered on) is not part of the model; the
    facts below that speak of the transport after a [RoundTrip] speak of
    what [RoundTrip] does itself. *)
Definition call (c : callee) (f : Request → Result) (req : Request) : M Result :=
  λ m, (f req, m, [EvCall c]).

(** [m.mu.Lock(); defer m.mu.Unlock(); body]: the deferred unlock runs
    when [body] has produced the value the method returns. *)
Definition locked {A} (body : M A) : M A :=
  Lock ;;; a <~ body ;; Unlock ;;; ret a.

Definition result_of {A} (c : M A) (m : MockTransport) : A := (c m).1.1.
Definition state_after {A} (c : M A) (m : MockTransport) : MockTransport := (c m).1.2.
Definition trace_of {A} (c : M A) (m : MockTransport) : list event := (c m).2.

(** The [range] loop of [responderForKey]: skip the entries whose key
    differs, return the value of the first that matches, nil if the
    loop ends. *)
Fixpoint range_find (kvs : list (string * Responder)) (key : string) : Responder :=
  match kvs with
  | [] => None
  | (k, r) :: rest =>
      if bool_decide (k ≠ key) then range_find rest key else r
  end.

Definition responderForKey (key : string) : M Responder :=
  locked (rs <~ get_responders ;; ret (range_find (map_to_list rs) key)).

(** [RoundTrip].  In its last part the source reads [m.noResponder]
    twice, for the test against nil and for the call; both reads are
    made under one hold of the mutex and see one value, and are one
    read here. *)
Definition RoundTrip (req : Request) : M Result :=
  let url := URL_String req in
  responder <~ responderForKey (Method req +:+ " " +:+ url) ;;
  responder <~ (if is_nil responder && strings.Contains url "?"
                then responderForKey
                       (Method req +:+ " " +:+ hd "" (strings.Split url "?"))
                else ret responder) ;;
  match responder with
  | Some f => call CResponder f req
  | None =>
      locked (nr <~ get_noResponder ;;
              match nr with
              | None => call CConnectionFailure ConnectionFailure req
              | Some f => call CNoResponder f req
              end)
  end.

Definition RegisterResponder (method url : string) (responder : Responder) : M unit :=
  locked (rs <~ get_responders ;;
          set_responders (<[method +:+ " " +:+ url := responder]> rs)).

Definition RegisterNoResponder (responder : Responder) : M unit :=
  locked (set_noResponder responder).

Definition Reset : M unit :=
  locked (set_responders ∅ ;;; set_noResponder None).

Definition Len : M nat :=
  locked (rs <~ get_responders ;; ret (size rs)).

Definition HasNoResponder : M bool :=
  locked (nr <~ get_noResponder ;; ret (negb (is_nil nr))).


(** ** The lock discipline of a method run

    Read off the event log, starting from a mutex that is free
    ([held = false]) or taken. *)

(** Every access to a field of the transport happens with the mutex
    held, and the mutex is taken only when free and released only when
    held. *)
Fixpoint accesses_locked (held : bool) (t : list event) : bool :=
  match t with
  | [] => true
  | EvLock :: t' => negb held && accesses_locked true t'
  | EvUnlock :: t' => held && accesses_locked false t'
  | (EvRead _ | EvWrite _) :: t' => held && accesses_locked held t'
  | EvCall _ :: t' => accesses_locked held t'
  end.

(** A responder supplied by the user: one taken from the registry or
    the [noResponder] field, as opposed to the package's own
    [ConnectionFailure]. *)
Definition user_responder (c : callee) : bool :=
  match c with
  | CResponder | CNoResponder => true
  | CConnectionFailure => false
  end.

(** Every call of a user's responder happens with the mutex free. *)
Fixpoint calls_unlocked (held : bool) (t : list event) : bool :=
  match t with
  | [] => true
  | EvLock :: t' => calls_unlocked true t'
  | EvUnlock :: t' => calls_unlocked false t'
  | EvCall c :: t' => negb (user_responder c && held) && calls_unlocked held t'
  | _ :: t' => calls_unlocked held t'
  end.


(** ** Names for the steps of [RoundTrip] *)

(** What [responderForKey] gives for [key]: the stored responder, nil
    when the key is absent (and nil too when nil is what is stored). *)
Definition lookup_responder (m : MockTransport) (key : string) : Responder :=
  default None (responders m !! key).

Definition exact_key (req : Request) : string :=
  Method req +:+ " " +:+ URL_String req.

Definition stripped_key (req : Request) : string :=
  Method req +:+ " " +:+ hd EmptyString (strings.Split (URL_String req) "?").

(** The `no responder' branch of [RoundTrip]. *)
Definition fallback (m : MockTransport) (req : Request) : Result :=
  match noResponder m with
  | None => ConnectionFailure req
  | Some f => f req
  end.

(** The responder [RoundTrip] settles on after its one or two lookups. *)
Definition chosen (m : MockTransport) (req : Request) : Responder :=
  match lookup_responder m (exact_key req) with
  | Some f => Some f
  | None =>
      if strings.Contains (URL_String req) "?"
      then lookup_responder m (stripped_key req)
      else None
  end.

(** The events of those lookups. *)
Definition lookup_trace (m : MockTransport) (req : Request) : list event :=
  [EvLock; EvRead Fresponders; EvUnlock] ++
  (if is_nil (lookup_responder m (exact_key req))
      && strings.Contains (URL_String req) "?"
   then [EvLock; EvRead Fresponders; EvUnlock] else []).

(** ** The activation controller

    The package-level variables the activation functions work on, as one
    record of globals.  A value of the interface [http.RoundTripper] is
    nil, a pointer to a [MockTransport], or some other transport; the
    two kinds of pointer are told apart the way Go compares interface
    values, by dynamic type and address. *)

Inductive RoundTripper :=
| NilTripper
| MockTripper (addr : nat)
| OtherTripper (addr : nat).

#[global] Instance RoundTripper_eq_dec : EqDecision RoundTripper.
Proof. solve_decision. Defined.

(** - [http_DefaultTransport]: the variable [http.DefaultTransport];
    - [Transports_Default], [Transports_Initial]: the fields of
      [Transports], the first the address of the default mock transport;
    - [oldHTTPGlobals_transport], [oldHTTPGlobals_client]: the fields of
      [oldHTTPGlobals], the client a pointer that may be nil;
    - [clients]: the [Transport] field of the [http.Client] at each
      address, nil where nothing was stored;
    - [queue_isLocked]: the counter behind [queue.isLocked];
    - [env_Disabled]: see [Disabled]. *)
Record Globals := {
  http_DefaultTransport : RoundTripper;
  Transports_Default : nat;
  Transports_Initial : RoundTripper;
  oldHTTPGlobals_transport : RoundTripper;
  oldHTTPGlobals_client : option nat;
  clients : gmap nat RoundTripper;
  queue_isLocked : Z;
  env_Disabled : bool
}.

(** Modelled from the spec: [Disabled] is declared in a file of the
    package that is not part of the sources at hand.  The specification
    describes it as a zero-argument boolean predicate, driven by the
    environment, that every activation and deactivation entry point
    consults first; its answer is a field of the globals. *)
Definition Disabled (g : Globals) : bool := env_Disabled g.

(** [client.Transport] for the client at address [c]. *)
Definition client_Transport (g : Globals) (c : nat) : RoundTripper :=
  default NilTripper (clients g !! c).

Definition set_http_DefaultTransport (t : RoundTripper) (g : Globals) : Globals :=
  {| http_DefaultTransport := t;
     Transports_Default := Transports_Default g;
     Transports_Initial := Transports_Initial g;
     oldHTTPGlobals_transport := oldHTTPGlobals_transport g;
     oldHTTPGlobals_client := oldHTTPGlobals_client g;
     clients := clients g;
     queue_isLocked := queue_isLocked g;
     env_Disabled := env_Disabled g |}.

Definition set_Transports_Initial (t : RoundTripper) (g : Globals) : Globals :=
  {| http_DefaultTransport := http_DefaultTransport g;
     Transports_Default := Transports_Default g;
     Transports_Initial := t;
     oldHTTPGlobals_transport := oldHTTPGlobals_transport g;
     oldHTTPGlobals_client := oldHTTPGlobals_client g;
     clients := clients g;
     queue_isLocked := queue_isLocked g;
     env_Disabled := env_Disabled g |}.

Definition set_oldHTTPGlobals (t : RoundTripper) (c : option nat) (g : Globals) : Globals :=
  {| http_DefaultTransport := http_DefaultTransport g;
     Transports_Default := Transports_Default g;
     Transports_Initial := Transports_Initial g;
     oldHTTPGlobals_transport := t;
     oldHTTPGlobals_client := c;
     clients := clients g;
     queue_isLocked := queue_isLocked g;
     env_Disabled := env_Disabled g |}.

(** [client.Transport = t] for the client at address [c]; this is also
    what a program does when it assigns the field itself. *)
Definition set_client_Transport (c : nat) (t : RoundTripper) (g : Globals) : Globals :=
  {| http_DefaultTransport := http_DefaultTransport g;
     Transports_Default := Transports_Default g;
     Transports_Initial := Transports_Initial g;
     oldHTTPGlobals_transport := oldHTTPGlobals_transport g;
     oldHTTPGlobals_client := oldHTTPGlobals_client g;
     clients := <[c := t]> (clients g);
     queue_isLocked := queue_isLocked g;
     env_Disabled := env_Disabled g |}.

Definition set_queue_isLocked (v : Z) (g : Globals) : Globals :=
  {| http_DefaultTransport := http_DefaultTransport g;
     Transports_Default := Transports_Default g;
     Transports_Initial := Transports_Initial g;
     oldHTTPGlobals_transport := oldHTTPGlobals_transport g;
     oldHTTPGlobals_client := oldHTTPGlobals_client g;
     clients := clients g;
     queue_isLocked := v;
     env_Disabled := env_Disabled g |}.

(** How a call of an activation function ends for the goroutine that
    makes it: it returns, or it is parked on the channel [queue.wait]
    (receiving in [Activate] and [ActivateNonDefault], sending in
    [Deactivate]) with the rest of the function still to run, on the
    globals as they are when the channel operation completes. *)
Inductive outcome :=
| Returned (g : Globals)
| Parked (g : Globals) (rest : Globals → Globals).

(** The part of [Activate] under [Transports.Lock()].  (Before it, a
    call that finds the gate taken prints a line and waits; the line is
    not part of the model.) *)
Definition Activate_locked (g : Globals) : Globals :=
  let g :=
    if bool_decide (http_DefaultTransport g ≠ MockTripper (Transports_Default g))
    then set_Transports_Initial (http_DefaultTransport g) g
    else g in
  set_http_DefaultTransport (MockTripper (Transports_Default g)) g.

Definition Activate (g : Globals) : outcome :=
  if Disabled g then Returned g
  else if 1 <=? queue_isLocked g
       then Parked (set_queue_isLocked 2 g) Activate_locked
       else Returned (Activate_locked (set_queue_isLocked 1 g)).

(** The part of [ActivateNonDefault] under the two locks; [client] is
    the address of the client, a pointer that is not nil. *)
Definition ActivateNonDefault_locked (client : nat) (g : Globals) : Globals :=
  let g := set_oldHTTPGlobals (client_Transport g client) (Some client) g in
  set_client_Transport client (MockTripper (Transports_Default g)) g.

Definition ActivateNonDefault (client : nat) (g : Globals) : outcome :=
  if Disabled g then Returned g
  else if 1 <=? queue_isLocked g
       then Parked (set_queue_isLocked 2 g) (ActivateNonDefault_locked client)
       else Returned (ActivateNonDefault_locked client (set_queue_isLocked 1 g)).

(** The part of [Deactivate] under the two locks. *)
Definition Deactivate_locked (g : Globals) : Globals :=
  let g := set_http_DefaultTransport (Transports_Initial g) g in
  match oldHTTPGlobals_client g with
  | Some client => set_client_Transport client (oldHTTPGlobals_transport g) g
  | None => g
  end.

Definition Deactivate (g : Globals) : outcome :=
  if Disabled g then Returned g
  else
    let isL := queue_isLocked g in
    if 1 <=? isL then
      let g := set_queue_isLocked 0 g in
      if isL =? 2 then Parked g Deactivate_locked
      else Returned (Deactivate_locked g)
    else Returned (Deactivate_locked g).

(** The globals a call leaves when it returns or parks. *)
Definition reached (o : outcome) : Globals :=
  match o with
  | Returned g => g
  | Parked g _ => g
  end.

(** The globals when the call has run to its end, a parked call being
    let through with the globals as it left them. *)
Definition completed (o : outcome) : Globals :=
  match o with
  | Returned g => g
  | Parked g rest => rest g
  end.

(** A run of further [Activate] calls, one per entry of [resumed]; the
    entry tells whether a call that parks is let through. *)
Definition Activate_again (resumed : list bool) (g : Globals) : Globals :=
  foldl (λ g (b : bool),
           if b then completed (Activate g) else reached (Activate g))
        g resumed.

(** What stays true from one [Activate] to the next while the mock
    transport is installed. *)
Definition mock_installed (saved : RoundTripper) (g : Globals) : Prop :=
  http_DefaultTransport g = MockTripper (Transports_Default g) ∧
  Transports_Initial g = saved.

(** The globals at process start: nothing mocked, no client recorded,
    [Transports.Initial] the transport [http.DefaultTransport] starts
    with. *)
Definition initial_globals (original : RoundTripper) (mock : nat) : Globals :=
  {| http_DefaultTransport := original;
     Transports_Default := mock;
     Transports_Initial := original;
     oldHTTPGlobals_transport := NilTripper;
     oldHTTPGlobals_client := None;
     clients := ∅;
     queue_isLocked := 0;
     env_Disabled := false |}.

(** ** Sample inputs

    The transport without the entry under [key], to compare a
    registration with; and the values the examples below run on. *)

Definition without_key (key : string) (m : MockTransport) : MockTransport :=
  {| responders := delete key (responders m); noResponder := noResponder m |}.

Definition hello : Request → Result :=
  λ _, (Some {| StatusCode := 200; Body := "hello world" |}, None).

Definition refused : Request → Result :=
  λ _, (None, Some (OtherError "connection refused")).

Definition GET (url : string) : Request := {| Method := "GET"; URL_String := url |}.
Definition POST (url : string) : Request := {| Method := "POST"; URL_String := url |}.

(** A transport with [hello] registered for GET http://x/a. *)
Definition one_responder : MockTransport :=
  state_after (RegisterResponder "GET" "http://x/a" (Some hello)) NewMockTransport.

(** A transport with nothing registered but [hello] as [noResponder]. *)
Definition only_noResponder : MockTransport :=
  state_after (RegisterNoResponder (Some hello)) NewMockTransport.

(** A process that has made a client, at address 1, with a transport of
    its own. *)
Definition custom_client : Globals :=
  set_client_Transport 1 (OtherTripper 7) (initial_globals (OtherTripper 0) 100).

(** A process that has assigned [http.DefaultTransport] a transport of
    its own and has not activated anything. *)
Definition reassigned_default : Globals :=
  set_http_DefaultTransport (OtherTripper 2) (initial_globals (OtherTripper 0) 100).

(** ** The rest of the package

    [CancelRequest], the readings of the event log that the facts on
    the other methods use, the package-level functions that work on the
    default mock transport, and runs of calls of the activation
    functions. *)

(** [CancelRequest] has an empty body. *)
Definition CancelRequest (req : Request) : M unit := ret tt.

(** Whether the mutex is held when the log ends. *)
Fixpoint held_after (held : bool) (t : list event) : bool :=
  match t with
  | [] => held
  | EvLock :: t' => held_after true t'
  | EvUnlock :: t' => held_after false t'
  | _ :: t' => held_after held t'
  end.

Definition is_call (e : event) : bool :=
  match e with EvCall _ => true | _ => false end.

Definition is_registry_read (e : event) : bool :=
  match e with EvRead Fresponders => true | _ => false end.

Definition is_write (e : event) : bool :=
  match e with EvWrite _ => true | _ => false end.

Definition count_events (p : event → bool) (t : list event) : nat :=
  length (List.filter p t).

(** A run of a method on [m], the mutex free at the start: the fields
    are accessed with the mutex held only, and the mutex is free again
    at the end. *)
Definition lock_disciplined {A} (c : M A) (m : MockTransport) : Prop :=
  accesses_locked false (trace_of c m) = true ∧
  held_after false (trace_of c m) = false.

(** The package variables: the globals of the activation functions and
    the [MockTransport] that [Transports.Default] points to.  No
    function of the package assigns [Transports.Default], so the
    transport behind it is one and the same throughout. *)
Record Package := {
  globals : Globals;
  default_mock : MockTransport
}.

(** How a call that works on the whole package ends: returned, or
    parked with the rest of the function still to run. *)
Inductive package_outcome :=
| PackageReturned (p : Package)
| PackageParked (p : Package) (rest : Package → Package).

Definition package_completed (o : package_outcome) : Package :=
  match o with
  | PackageReturned p => p
  | PackageParked p rest => rest p
  end.

Definition on_globals (f : Globals → Globals) (p : Package) : Package :=
  {| globals := f (globals p); default_mock := default_mock p |}.

(** [Transports.Lock(); defer Transports.Unlock();
    Transports.Default.method(...)]. *)
Definition on_default {A} (method : M A) (p : Package) : Package :=
  {| globals := globals p;
     default_mock := state_after method (default_mock p) |}.

(** The package-level functions of the same names as the methods. *)
Module Facade.

Definition RegisterResponder (method url : string) (responder : Responder)
    (p : Package) : Package :=
  on_default (RegisterResponder method url responder) p.

Definition RegisterNoResponder (responder : Responder) (p : Package) : Package :=
  on_default (RegisterNoResponder responder) p.

Definition Reset (p : Package) : Package := on_default Reset p.

(** [Deactivate(); Reset()]: when [Deactivate] parks, the rest of it
    and the [Reset] are still to run. *)
Definition DeactivateAndReset (p : Package) : package_outcome :=
  match Deactivate (globals p) with
  | Returned g => PackageReturned (Reset (on_globals (λ _, g) p))
  | Parked g rest =>
      PackageParked (on_globals (λ _, g) p) (λ p', Reset (on_globals rest p'))
  end.

End Facade.

(** A call of one of the three activation functions. *)
Inductive api_call :=
| CallActivate
| CallActivateNonDefault (client : nat)
| CallDeactivate.

Definition run_call (call : api_call) (g : Globals) : outcome :=
  match call with
  | CallActivate => Activate g
  | CallActivateNonDefault client => ActivateNonDefault client g
  | CallDeactivate => Deactivate g
  end.

(** Calls made one after the other, each on the globals the one before
    left; with each goes whether it is let through when it parks.  This
    follows the program where no call parks; where calls park, the runs
    of the program are those of [after_steps] below. *)
Definition after_calls (calls : list (api_call * bool)) (g : Globals) : Globals :=
  foldl (λ g (cb : api_call * bool),
           if cb.2 then completed (run_call cb.1 g) else reached (run_call cb.1 g))
        g calls.

(** What goroutines that call the activation functions do to the
    globals, one indivisible step at a time: a store to the gate counter
    (the code stores 0, 1 and 2, with [atomic.StoreInt32]), or the
    locked part of one of the three functions.  The locked parts all
    hold [Transports]' mutex, so none runs while another does.  Every
    call is made of these steps ([Disabled] apart, where it makes
    none), and every interleaving of calls by any number of goroutines
    is a list of them; lists that no interleaving gives are included. *)
Inductive gate_store := Store0 | Store1 | Store2.

Definition stored (v : gate_store) : Z :=
  match v with Store0 => 0 | Store1 => 1 | Store2 => 2 end.

Inductive atomic_step :=
| StepStore (v : gate_store)
| StepActivate
| StepActivateNonDefault (client : nat)
| StepDeactivate.

Definition run_step (step : atomic_step) (g : Globals) : Globals :=
  match step with
  | StepStore v => set_queue_isLocked (stored v) g
  | StepActivate => Activate_locked g
  | StepActivateNonDefault client => ActivateNonDefault_locked client g
  | StepDeactivate => Deactivate_locked g
  end.

Definition after_steps (steps : list atomic_step) (g : Globals) : Globals :=
  foldl (λ g step, run_step step g) g steps.

(** The mock is not what is saved as the original transport, the
    default transport is the saved one or the mock, and the gate
    counter is 0, 1 or 2. *)
Definition controller_ok (g : Globals) : Prop :=
  Transports_Initial g ≠ MockTripper (Transports_Default g) ∧
  (http_DefaultTransport g = Transports_Initial g ∨
   http_DefaultTransport g = MockTripper (Transports_Default g)) ∧
  0 ≤ queue_isLocked g ≤ 2.

(** * Facts about the [strings] functions *)

Module strings_facts.
Import strings.

Lemma append_String c a b : String c a +:+ b = String c (a +:+ b).
Proof. reflexivity. Qed.

Lemma slice_to_empty n : slice_to n EmptyString = EmptyString.
Proof. by destruct n. Qed.

Lemma HasPrefix_empty_l sep : sep ≠ EmptyString → HasPrefix EmptyString sep = false.
Proof. by destruct sep. Qed.

Lemma HasPrefix_slice_to n s sep :
  HasPrefix (slice_to n s) sep = true → HasPrefix s sep = true.
Proof.
  revert n s. induction sep as [|a sep IH]; intros n s; [done|].
  destruct n as [|n], s as [|b s]; simpl; try done.
  destruct (Ascii.eqb a b); [apply IH | done].
Qed.

Lemma HasPrefix_append s sep :
  HasPrefix s sep = true → s = sep +:+ slice_from (String.length sep) s.
Proof.
  revert s. induction sep as [|a sep IH]; intros s; simpl.
  - by destruct s.
  - destruct s as [|b s]; [done|].
    destruct (Ascii.eqb_spec a b) as [->|]; [|done].
    intros H. rewrite append_String. f_equal. by apply IH.
Qed.

Lemma Index_lower s sep : -1 ≤ Index s sep.
Proof.
  induction s as [|c s IH]; simpl.
  - destruct (HasPrefix _ _); lia.
  - destruct (HasPrefix _ _); [lia|].
    destruct (Z.ltb_spec (Index s sep) 0); lia.
Qed.

Lemma Index_cons c s sep :
  HasPrefix (String c s) sep = false →
  Index (String c s) sep = if Index s sep <? 0 then -1 else Index s sep + 1.
Proof. simpl. by intros ->. Qed.

(** Where [Index] points, [sep] occurs. *)
Lemma Index_found s sep :
  0 ≤ Index s sep →
  s = slice_to (Z.to_nat (Index s sep)) s
        +:+ sep +:+ slice_from (Z.to_nat (Index s sep) + String.length sep) s.
Proof.
  induction s as [|c s IH].
  - simpl. destruct (HasPrefix EmptyString sep) eqn:Hp; [|lia].
    intros _. by apply HasPrefix_append.
  - destruct (HasPrefix (String c s) sep) eqn:Hp.
    + assert (Index (String c s) sep = 0) as -> by (simpl in *; by rewrite Hp).
      intros _. by apply HasPrefix_append.
    + rewrite Index_cons by done.
      destruct (Z.ltb_spec (Index s sep) 0) as [|Hge]; [lia|]. intros _.
      replace (Z.to_nat (Index s sep + 1)) with (S (Z.to_nat (Index s sep))) by lia.
      simpl. rewrite append_String. f_equal. by apply IH.
Qed.

(** And it points at the first occurrence: there is none before. *)
Lemma Index_first s sep :
  sep ≠ EmptyString → 0 ≤ Index s sep →
  Contains (slice_to (Z.to_nat (Index s sep)) s) sep = false.
Proof.
  intros Hsep. unfold Contains. induction s as [|c s IH].
  - intros _. rewrite slice_to_empty. simpl.
    by rewrite HasPrefix_empty_l.
  - destruct (HasPrefix (String c s) sep) eqn:Hp.
    + assert (Index (String c s) sep = 0) as -> by (simpl in *; by rewrite Hp).
      intros _. simpl. by rewrite HasPrefix_empty_l.
    + rewrite Index_cons by done.
      destruct (Z.ltb_spec (Index s sep) 0) as [|Hge]; [lia|]. intros _.
      replace (Z.to_nat (Index s sep + 1)) with (S (Z.to_nat (Index s sep))) by lia.
      specialize (IH Hge). apply Z.leb_gt in IH. apply Z.leb_gt.
      change (slice_to (S ?n) (String c s)) with (String c (slice_to n s)).
      rewrite Index_cons.
      * destruct (Z.ltb_spec (Index (slice_to (Z.to_nat (Index s sep)) s) sep) 0); lia.
      * destruct (HasPrefix (String c (slice_to _ s)) sep) eqn:Hq; [|done].
        apply (HasPrefix_slice_to (S (Z.to_nat (Index s sep))) (String c s)) in Hq.
        congruence.
Qed.

Lemma genSplit_hd n s sep :
  hd EmptyString (genSplit (S n) s sep) =
    if Index s sep <? 0 then s else slice_to (Z.to_nat (Index s sep)) s.
Proof. simpl. by destruct (Index s sep <? 0). Qed.

(** [Split] always has a first piece, so [Split(s, sep)[0]] is in
    range, and it is [s] cut before the first [sep]. *)
Lemma Split_nonempty s sep : strings.Split s sep ≠ [].
Proof.
  unfold Split. destruct (String.length s); simpl; [done|].
  by destruct (Index s sep <? 0).
Qed.

Lemma Split_first s sep :
  sep ≠ EmptyString →
  hd EmptyString (Split s sep) =
    if Contains s sep then slice_to (Z.to_nat (Index s sep)) s else s.
Proof.
  intros Hsep. unfold Split, Contains. destruct s as [|c s].
  - simpl. by rewrite HasPrefix_empty_l.
  - cbn [String.length]. rewrite genSplit_hd.
    destruct (Z.ltb_spec (Index (String c s) sep) 0),
             (Z.leb_spec 0 (Index (String c s) sep)); try done; lia.
Qed.

(** The first piece of a string that contains [sep]: what comes
    before the first occurrence. *)
Lemma Split_first_spec s sep :
  sep ≠ EmptyString → Contains s sep = true →
  Contains (hd EmptyString (Split s sep)) sep = false ∧
  ∃ rest, s = hd EmptyString (Split s sep) +:+ sep +:+ rest.
Proof.
  intros Hsep Hc. rewrite Split_first, Hc by done.
  unfold Contains in Hc. apply Z.leb_le in Hc. split.
  - by apply Index_first.
  - eexists. by apply Index_found.
Qed.

End strings_facts.

(** ** What the methods compute *)

Section MockTransport_facts.
Implicit Types (m : MockTransport) (req : Request) (key : string).

Lemma range_find_absent (l : list (string * Responder)) key :
  key ∉ l.*1 → range_find l key = None.
Proof.
  induction l as [|[k r] l IH]; simpl; [done|].
  rewrite not_elem_of_cons. intros [Hne Hl].
  rewrite bool_decide_true by done. by apply IH.
Qed.

Lemma range_find_present (l : list (string * Responder)) key r :
  NoDup l.*1 → (key, r) ∈ l → range_find l key = r.
Proof.
  induction l as [|[k r'] l IH]; simpl.
  - by intros _ ?%elem_of_nil.
  - rewrite NoDup_cons, elem_of_cons. intros [Hk Hnd] [[= <- <-]|Hin].
    + by rewrite bool_decide_false by naive_solver.
    + rewrite bool_decide_true; [by apply IH|].
      intros ->. apply Hk. by apply (list_elem_of_fmap_2 fst _ (key, r)).
Qed.

(** The loop finds what the map holds under [key], whatever the order
    in which [range] visits the entries. *)
Lemma range_find_map_to_list (rs : gmap string Responder) key :
  range_find (map_to_list rs) key = default None (rs !! key).
Proof.
  destruct (rs !! key) as [r|] eqn:Hk; simpl.
  - apply range_find_present; [apply NoDup_fst_map_to_list|].
    by apply elem_of_map_to_list.
  - apply range_find_absent.
    intros [[k r] [Hkey Hin%elem_of_map_to_list]]%list_elem_of_fmap.
    simpl in Hkey. subst k. by pose proof (eq_trans (eq_sym Hin) Hk).
Qed.

Lemma responderForKey_run key m :
  responderForKey key m =
    (lookup_responder m key, m, [EvLock; EvRead Fresponders; EvUnlock]).
Proof.
  unfold responderForKey, locked, bind, Lock, Unlock, emit, get_responders, ret.
  simpl. by rewrite range_find_map_to_list.
Qed.

Lemma RoundTrip_run req m :
  RoundTrip req m =
    match chosen m req with
    | Some f => (f req, m, lookup_trace m req ++ [EvCall CResponder])
    | None =>
        (fallback m req, m,
         lookup_trace m req ++
         [EvLock; EvRead FnoResponder;
          EvCall (if is_nil (noResponder m) then CConnectionFailure else CNoResponder);
          EvUnlock])
    end.
Proof.
  unfold RoundTrip, bind at 1. rewrite responderForKey_run.
  unfold chosen, lookup_trace, fallback. fold (exact_key req).
  destruct (lookup_responder m (exact_key req)) as [f|] eqn:He; simpl.
  - done.
  - unfold bind at 1. destruct (strings.Contains (URL_String req) "?").
    + rewrite responderForKey_run. fold (stripped_key req).
      destruct (lookup_responder m (stripped_key req)); [reflexivity|].
      clear He. by destruct m as [rs [g|]].
    + clear He. by destruct m as [rs [g|]].
Qed.

Lemma RoundTrip_result req m :
  result_of (RoundTrip req) m =
    match chosen m req with Some f => f req | None => fallback m req end.
Proof. unfold result_of. rewrite RoundTrip_run. by destruct (chosen m req). Qed.

Lemma RoundTrip_state req m : state_after (RoundTrip req) m = m.
Proof. unfold state_after. rewrite RoundTrip_run. by destruct (chosen m req). Qed.

Lemma RegisterResponder_state method url r m :
  state_after (RegisterResponder method url r) m =
    {| responders := <[method +:+ " " +:+ url := r]> (responders m);
       noResponder := noResponder m |}.
Proof. reflexivity. Qed.

Lemma RegisterNoResponder_state r m :
  state_after (RegisterNoResponder r) m =
    {| responders := responders m; noResponder := r |}.
Proof. reflexivity. Qed.

Lemma Len_result m : result_of Len m = size (responders m).
Proof. reflexivity. Qed.

Lemma responderForKey_result key m :
  result_of (responderForKey key) m = lookup_responder m key.
Proof. unfold result_of. by rewrite responderForKey_run. Qed.

Lemma fallback_unfold m req :
  fallback m req =
    match noResponder m with
    | Some f => f req
    | None => (None, Some NoResponderFound)
    end.
Proof. unfold fallback. by destruct (noResponder m). Qed.

Lemma lookup_responder_Some m key f :
  responders m !! key = Some (Some f) → lookup_responder m key = Some f.
Proof. unfold lookup_responder. by intros ->. Qed.

End MockTransport_facts.

(** ** Dispatch *)

Section Dispatch.
Implicit Types (m : MockTransport) (req : Request) (f : Request → Result).

Lemma RoundTrip_exact_run m req f :
  responders m !! exact_key req = Some (Some f) →
  RoundTrip req m =
    (f req, m, [EvLock; EvRead Fresponders; EvUnlock; EvCall CResponder]).
Proof.
  intros Hk. rewrite RoundTrip_run. unfold chosen, lookup_trace.
  by rewrite (lookup_responder_Some m (exact_key req) f Hk).
Qed.

(** Registering a responder for a method and URL and dispatching a
    request with that method and URL gives the responder's output. *)
Lemma RoundTrip_registered m method url f req :
  Method req = method → URL_String req = url →
  result_of (RoundTrip req) (state_after (RegisterResponder method url (Some f)) m)
    = f req.
Proof.
  intros <- <-. unfold result_of.
  rewrite (RoundTrip_exact_run _ req f); [done|].
  rewrite RegisterResponder_state. simpl. apply lookup_insert_eq.
Qed.

(** C1.  When the registry holds a responder under the exact key of the
    request (its method, a space, its full URL string), [RoundTrip]
    makes one lookup, calls that responder and returns what it returns,
    unchanged; it makes no second lookup, does not read [noResponder]
    and does not call [ConnectionFailure]; the transport is left as it
    was.  So a request with the method and URL a responder was
    registered for gets that responder's output. *)
Theorem RoundTrip_exact_match m req f :
  responders m !! (Method req +:+ " " +:+ URL_String req) = Some (Some f) →
  RoundTrip req m =
    (f req, m, [EvLock; EvRead Fresponders; EvUnlock; EvCall CResponder]) ∧
  ∀ m0, result_of (RoundTrip req)
          (state_after (RegisterResponder (Method req) (URL_String req) (Some f)) m0)
        = f req.
Proof.
  intros Hk. split; [by apply RoundTrip_exact_run|].
  intros m0. by apply RoundTrip_registered.
Qed.

Lemma RoundTrip_exact_match_witness :
  RoundTrip (GET "http://x/a") one_responder =
    (hello (GET "http://x/a"), one_responder,
     [EvLock; EvRead Fresponders; EvUnlock; EvCall CResponder]).
Proof.
  apply (RoundTrip_exact_match one_responder (GET "http://x/a") hello).
  vm_compute. reflexivity.
Defined.

(** C2.  When the lookup of the exact key gives nothing and the URL
    contains "?", the URL splits as [base ++ "?" ++ rest] with no "?"
    in [base], and [RoundTrip] looks up the key of the same method and
    [base]: a responder found there is called and its output returned,
    otherwise the `no responder' branch decides.  In particular, with
    [G] under "GET http://x/a" and nothing under the exact key, the
    request GET http://x/a?q=1 returns [G]'s output; and with nothing
    under the two POST keys and no [noResponder], the request POST
    http://x/a?q=1 returns no response and [NoResponderFound]. *)
Theorem RoundTrip_query_fallback :
  (∀ m req,
     result_of (responderForKey (Method req +:+ " " +:+ URL_String req)) m = None →
     strings.Contains (URL_String req) "?" = true →
     ∃ base rest,
       URL_String req = base +:+ "?" +:+ rest ∧
       strings.Contains base "?" = false ∧
       hd EmptyString (strings.Split (URL_String req) "?") = base ∧
       result_of (RoundTrip req) m =
         match result_of (responderForKey (Method req +:+ " " +:+ base)) m with
         | Some f => f req
         | None => match noResponder m with
                   | Some f => f req
                   | None => (None, Some NoResponderFound)
                   end
         end) ∧
  (∀ m f,
     responders m !! "GET http://x/a" = Some (Some f) →
     result_of (responderForKey "GET http://x/a?q=1") m = None →
     let req := {| Method := "GET"; URL_String := "http://x/a?q=1" |} in
     result_of (RoundTrip req) m = f req) ∧
  (∀ m,
     result_of (responderForKey "POST http://x/a?q=1") m = None →
     result_of (responderForKey "POST http://x/a") m = None →
     noResponder m = None →
     let req := {| Method := "POST"; URL_String := "http://x/a?q=1" |} in
     result_of (RoundTrip req) m = (None, Some NoResponderFound)).
Proof.
  split; [|split].
  - intros m req He Hq. rewrite responderForKey_result in He.
    destruct (strings_facts.Split_first_spec (URL_String req) "?") as [Hb [rest Hr]];
      [done..|].
    eexists _, rest. split; [exact Hr|]. split; [exact Hb|]. split; [done|].
    rewrite RoundTrip_result, responderForKey_result, <- fallback_unfold.
    unfold chosen, exact_key. rewrite He, Hq.
    fold (stripped_key req). by destruct (lookup_responder m (stripped_key req)).
  - intros m f Hg He req. rewrite responderForKey_result in He.
    rewrite RoundTrip_result. unfold chosen.
    change (exact_key req) with "GET http://x/a?q=1". rewrite He.
    change (strings.Contains (URL_String req) "?") with true.
    change (stripped_key req) with "GET http://x/a".
    by rewrite (lookup_responder_Some _ _ _ Hg).
  - intros m He Hs Hn req. rewrite responderForKey_result in He, Hs.
    rewrite RoundTrip_result. unfold chosen.
    change (exact_key req) with "POST http://x/a?q=1". rewrite He.
    change (strings.Contains (URL_String req) "?") with true.
    change (stripped_key req) with "POST http://x/a". rewrite Hs.
    unfold fallback. by rewrite Hn.
Qed.

Lemma RoundTrip_query_fallback_witness :
  result_of (RoundTrip (GET "http://x/a?q=1")) one_responder
    = hello (GET "http://x/a?q=1") ∧
  result_of (RoundTrip (POST "http://x/a?q=1")) one_responder
    = (None, Some NoResponderFound) ∧
  ∃ base rest,
    "http://x/a?q=1" = base +:+ "?" +:+ rest ∧
    strings.Contains base "?" = false ∧
    hd EmptyString (strings.Split "http://x/a?q=1" "?") = base ∧
    result_of (RoundTrip (GET "http://x/a?q=1")) one_responder =
      match result_of (responderForKey ("GET" +:+ " " +:+ base)) one_responder with
      | Some f => f (GET "http://x/a?q=1")
      | None => match noResponder one_responder with
                | Some f => f (GET "http://x/a?q=1")
                | None => (None, Some NoResponderFound)
                end
      end.
Proof.
  split; [|split].
  - apply (proj1 (proj2 RoundTrip_query_fallback) one_responder hello);
      vm_compute; reflexivity.
  - apply (proj2 (proj2 RoundTrip_query_fallback) one_responder);
      vm_compute; reflexivity.
  - apply (proj1 RoundTrip_query_fallback one_responder (GET "http://x/a?q=1"));
      vm_compute; reflexivity.
Defined.

(** C3.  When neither the exact key nor, for a URL with "?", the
    stripped key leads to a responder: [RoundTrip] returns the output
    of [noResponder] if it is set, and no response with
    [NoResponderFound] if it is not.  [RegisterNoResponder] with nil
    leaves [noResponder] unset and the registry as it was, so the same
    request then returns no response with [NoResponderFound]. *)
Theorem RoundTrip_no_responder m req :
  result_of (responderForKey (Method req +:+ " " +:+ URL_String req)) m = None →
  (strings.Contains (URL_String req) "?" = true →
   result_of
     (responderForKey
        (Method req +:+ " " +:+ hd EmptyString (strings.Split (URL_String req) "?"))) m
     = None) →
  (∀ f, noResponder m = Some f → result_of (RoundTrip req) m = f req) ∧
  (noResponder m = None →
   result_of (RoundTrip req) m = (None, Some NoResponderFound)) ∧
  (let m' := state_after (RegisterNoResponder None) m in
   noResponder m' = None ∧ responders m' = responders m ∧
   result_of (RoundTrip req) m' = (None, Some NoResponderFound)).
Proof.
  rewrite !responderForKey_result. intros He Hs.
  assert (∀ m', responders m' = responders m →
                result_of (RoundTrip req) m' = fallback m' req) as Hfall.
  { intros m' Hrs. rewrite RoundTrip_result. unfold chosen, lookup_responder in *.
    unfold exact_key, stripped_key. rewrite Hrs, He.
    destruct (strings.Contains (URL_String req) "?"); [by rewrite Hs|done]. }
  split; [|split].
  - intros f Hn. rewrite Hfall by done. unfold fallback. by rewrite Hn.
  - intros Hn. rewrite Hfall by done. unfold fallback. by rewrite Hn.
  - simpl. split; [done|]. split; [done|]. by rewrite Hfall.
Qed.

Lemma RoundTrip_no_responder_witness :
  (∀ f, noResponder only_noResponder = Some f →
        result_of (RoundTrip (GET "http://www.example.com/?hello=world")) only_noResponder
          = f (GET "http://www.example.com/?hello=world")) ∧
  (noResponder only_noResponder = None →
   result_of (RoundTrip (GET "http://www.example.com/?hello=world")) only_noResponder
     = (None, Some NoResponderFound)) ∧
  (let m' := state_after (RegisterNoResponder None) only_noResponder in
   noResponder m' = None ∧ responders m' = responders only_noResponder ∧
   result_of (RoundTrip (GET "http://www.example.com/?hello=world")) m'
     = (None, Some NoResponderFound)).
Proof.
  apply (RoundTrip_no_responder only_noResponder
           (GET "http://www.example.com/?hello=world")).
  - vm_compute. reflexivity.
  - intros _. vm_compute. reflexivity.
Defined.

(** C4.  Registering a responder [f] under a method and URL whose key
    is already in the registry replaces what was bound there: the key
    is now bound to [f], a request with that method and URL returns
    [f]'s output, and [Len] is what it was before. *)
Theorem RegisterResponder_overwrite m method url (old : Responder) f :
  responders m !! (method +:+ " " +:+ url) = Some old →
  let m' := state_after (RegisterResponder method url (Some f)) m in
  responders m' !! (method +:+ " " +:+ url) = Some (Some f) ∧
  (∀ req, Method req = method → URL_String req = url →
          result_of (RoundTrip req) m' = f req) ∧
  result_of Len m' = result_of Len m.
Proof.
  intros Hold m'. split; [|split].
  - subst m'. rewrite RegisterResponder_state. simpl. apply lookup_insert_eq.
  - intros req. apply RoundTrip_registered.
  - subst m'. rewrite !Len_result, RegisterResponder_state. simpl.
    apply map_size_insert_Some. by rewrite Hold.
Qed.

Lemma RegisterResponder_overwrite_witness :
  let m' := state_after (RegisterResponder "GET" "http://x/a" (Some refused))
              one_responder in
  responders m' !! ("GET" +:+ " " +:+ "http://x/a") = Some (Some refused) ∧
  (∀ req, Method req = "GET" → URL_String req = "http://x/a" →
          result_of (RoundTrip req) m' = refused req) ∧
  result_of Len m' = result_of Len one_responder.
Proof.
  apply (RegisterResponder_overwrite one_responder "GET" "http://x/a" (Some hello) refused).
  vm_compute. reflexivity.
Defined.

End Dispatch.

(** ** Nil responders and colliding keys *)

Section Registry.
Implicit Types (m : MockTransport) (req : Request) (key : string).

Lemma lookup_responder_nil key m k :
  lookup_responder
    {| responders := <[key := None]> (responders m); noResponder := noResponder m |} k
  = lookup_responder (without_key key m) k.
Proof.
  unfold lookup_responder, without_key. simpl.
  destruct (decide (key = k)) as [->|Hne].
  - by rewrite lookup_insert_eq, lookup_delete_eq.
  - by rewrite lookup_insert_ne, lookup_delete_ne.
Qed.

(** C9.  [RegisterResponder] takes a nil responder: the key is then in
    the registry, bound to nil, and [Len] counts it (one more than for
    the transport without the key); but [RoundTrip] returns for every
    request what it returns on the transport without the key, and for a
    request with that method and URL it goes on to the lookup of the
    stripped key when the URL has a "?", then to [noResponder], then to
    [ConnectionFailure]. *)
Theorem RegisterResponder_nil m method url :
  let key := method +:+ " " +:+ url in
  let m' := state_after (RegisterResponder method url None) m in
  responders m' !! key = Some None ∧
  result_of Len m' = S (result_of Len (without_key key m)) ∧
  (∀ req, result_of (RoundTrip req) m' = result_of (RoundTrip req) (without_key key m)) ∧
  (∀ req, Method req = method → URL_String req = url →
          result_of (RoundTrip req) m' =
            match (if strings.Contains url "?"
                   then result_of
                          (responderForKey
                             (method +:+ " " +:+ hd EmptyString (strings.Split url "?")))
                          m'
                   else None) with
            | Some f => f req
            | None => match noResponder m' with
                      | Some f => f req
                      | None => (None, Some NoResponderFound)
                      end
            end).
Proof.
  intros key m'. subst m'. rewrite RegisterResponder_state. fold key.
  split; [|split; [|split]].
  - simpl. apply lookup_insert_eq.
  - rewrite !Len_result. simpl. rewrite <- (insert_delete_eq (responders m)).
    apply map_size_insert_None, lookup_delete_eq.
  - intros req. rewrite !RoundTrip_result. unfold chosen, fallback.
    by rewrite !lookup_responder_nil.
  - intros req <- <-. rewrite RoundTrip_result, responderForKey_result.
    unfold chosen, fallback. fold (stripped_key req).
    fold (exact_key req). fold key. rewrite lookup_responder_nil.
    unfold lookup_responder at 1, without_key. simpl. rewrite lookup_delete_eq. simpl.
    by destruct (strings.Contains (URL_String req) "?").
Qed.

(** C10.  The registry is keyed by the text of the method, a space and
    the URL.  Two pairs of method and URL that give the same text name
    the same entry: registering a responder under either pair leaves the
    same transport, a request carrying one pair gets the responder
    registered under the other, and a registration under one pair
    replaces the one made under the other. *)
Theorem RegisterResponder_key_collision method1 url1 method2 url2 :
  method1 +:+ " " +:+ url1 = method2 +:+ " " +:+ url2 →
  (∀ r m, state_after (RegisterResponder method1 url1 r) m
          = state_after (RegisterResponder method2 url2 r) m) ∧
  (∀ f m req, Method req = method2 → URL_String req = url2 →
     result_of (RoundTrip req) (state_after (RegisterResponder method1 url1 (Some f)) m)
     = f req) ∧
  (∀ r1 r2 m,
     state_after (RegisterResponder method2 url2 r2)
       (state_after (RegisterResponder method1 url1 r1) m)
     = state_after (RegisterResponder method2 url2 r2) m).
Proof.
  intros Hkey. split; [|split].
  - intros r m. by rewrite !RegisterResponder_state, Hkey.
  - intros f m req Hm Hu. rewrite RegisterResponder_state, Hkey.
    rewrite <- (RegisterResponder_state method2 url2). by apply RoundTrip_registered.
  - intros r1 r2 m. rewrite !RegisterResponder_state, Hkey. simpl.
    by rewrite insert_insert_eq.
Qed.

Lemma RegisterResponder_key_collision_witness :
  ("GET", "a b") ≠ ("GET a", "b") ∧
  (∀ r m, state_after (RegisterResponder "GET" "a b" r) m
          = state_after (RegisterResponder "GET a" "b" r) m) ∧
  result_of (RoundTrip {| Method := "GET a"; URL_String := "b" |})
    (state_after (RegisterResponder "GET" "a b" (Some hello)) NewMockTransport)
  = hello {| Method := "GET a"; URL_String := "b" |} ∧
  state_after (RegisterResponder "GET a" "b" (Some refused))
    (state_after (RegisterResponder "GET" "a b" (Some hello)) NewMockTransport)
  = state_after (RegisterResponder "GET a" "b" (Some refused)) NewMockTransport.
Proof.
  split; [discriminate|].
  assert ("GET" +:+ " " +:+ "a b" = "GET a" +:+ " " +:+ "b") as Hkey by reflexivity.
  pose proof (RegisterResponder_key_collision "GET" "a b" "GET a" "b" Hkey)
    as (Hsame & Hdispatch & Hreplace).
  split; [exact Hsame|]. split.
  - apply Hdispatch; reflexivity.
  - apply Hreplace.
Defined.

End Registry.

(** ** The mutex during dispatch *)

Section Locking.
Implicit Types (m : MockTransport) (req : Request).

Lemma accesses_locked_lookup m req t :
  accesses_locked false (lookup_trace m req ++ t) = accesses_locked false t.
Proof. unfold lookup_trace. by destruct (_ && _). Qed.

Lemma calls_unlocked_lookup m req t :
  calls_unlocked false (lookup_trace m req ++ t) = calls_unlocked false t.
Proof. unfold lookup_trace. by destruct (_ && _). Qed.

(** [RoundTrip] reads the registry and [noResponder] only with the
    mutex held, whatever the request. *)
Lemma RoundTrip_accesses_locked m req :
  accesses_locked false (trace_of (RoundTrip req) m) = true.
Proof.
  unfold trace_of. rewrite RoundTrip_run.
  destruct (chosen m req); cbn [snd]; rewrite accesses_locked_lookup; [done|].
  by destruct (is_nil (noResponder m)).
Qed.

(** A responder found in the registry is called with the mutex free. *)
Lemma RoundTrip_registry_call_unlocked m req f :
  chosen m req = Some f →
  calls_unlocked false (trace_of (RoundTrip req) m) = true.
Proof.
  intros Hc. unfold trace_of. rewrite RoundTrip_run, Hc. cbn [snd].
  by rewrite calls_unlocked_lookup.
Qed.

(** The [noResponder] is called with the mutex held. *)
Lemma RoundTrip_noResponder_call_locked m req f :
  chosen m req = None → noResponder m = Some f →
  calls_unlocked false (trace_of (RoundTrip req) m) = false.
Proof.
  intros Hc Hn. unfold trace_of. rewrite RoundTrip_run, Hc, Hn. cbn [snd].
  by rewrite calls_unlocked_lookup.
Qed.

(** C5.  On a transport with nothing registered and [hello] as
    [noResponder], [RoundTrip] takes the mutex for the lookup and
    releases it, takes it again, reads [noResponder], calls it and only
    then releases the mutex: the accesses to the fields are all made
    with the mutex held, but the call of the user's responder is made
    with the mutex held too, not with it released. *)
Theorem RoundTrip_noResponder_under_lock :
  trace_of (RoundTrip (GET "http://www.example.com/")) only_noResponder =
    [EvLock; EvRead Fresponders; EvUnlock;
     EvLock; EvRead FnoResponder; EvCall CNoResponder; EvUnlock] ∧
  accesses_locked false
    (trace_of (RoundTrip (GET "http://www.example.com/")) only_noResponder) = true ∧
  calls_unlocked false
    (trace_of (RoundTrip (GET "http://www.example.com/")) only_noResponder) = false.
Proof. by vm_compute. Qed.

End Locking.

(** ** Activation and deactivation *)

Section Activation.
Implicit Types (g : Globals) (c : nat) (t : RoundTripper).

Lemma Activate_completed g :
  completed (Activate g) =
    if Disabled g then g
    else Activate_locked
           (set_queue_isLocked (if 1 <=? queue_isLocked g then 2 else 1) g).
Proof.
  unfold Activate. destruct (Disabled g); [done|].
  by destruct (1 <=? queue_isLocked g).
Qed.

Lemma Deactivate_completed g :
  completed (Deactivate g) =
    if Disabled g then g
    else Deactivate_locked
           (if 1 <=? queue_isLocked g then set_queue_isLocked 0 g else g).
Proof.
  unfold Deactivate. destruct (Disabled g); [done|].
  destruct (1 <=? queue_isLocked g); [|done].
  by destruct (queue_isLocked g =? 2).
Qed.

Lemma ActivateNonDefault_completed c g :
  completed (ActivateNonDefault c g) =
    if Disabled g then g
    else ActivateNonDefault_locked c
           (set_queue_isLocked (if 1 <=? queue_isLocked g then 2 else 1) g).
Proof.
  unfold ActivateNonDefault. destruct (Disabled g); [done|].
  by destruct (1 <=? queue_isLocked g).
Qed.

Lemma Activate_locked_Initial g :
  Transports_Initial (Activate_locked g) =
    if bool_decide (http_DefaultTransport g = MockTripper (Transports_Default g))
    then Transports_Initial g else http_DefaultTransport g.
Proof.
  unfold Activate_locked.
  destruct (decide (http_DefaultTransport g = MockTripper (Transports_Default g))).
  - by rewrite bool_decide_false, bool_decide_true by naive_solver.
  - by rewrite bool_decide_true, bool_decide_false by naive_solver.
Qed.

Lemma Activate_locked_fields g :
  http_DefaultTransport (Activate_locked g) = MockTripper (Transports_Default g) ∧
  Transports_Default (Activate_locked g) = Transports_Default g ∧
  Disabled (Activate_locked g) = Disabled g.
Proof. unfold Activate_locked. by destruct (bool_decide _). Qed.

Lemma mock_installed_Activate saved g (b : bool) :
  mock_installed saved g →
  mock_installed saved (if b then completed (Activate g) else reached (Activate g)).
Proof.
  intros [Hd Hi].
  assert (∀ v, mock_installed saved (Activate_locked (set_queue_isLocked v g))) as Hl.
  { intros v. split.
    - destruct (Activate_locked_fields (set_queue_isLocked v g)) as (-> & -> & _).
      done.
    - rewrite Activate_locked_Initial. simpl. by rewrite bool_decide_true. }
  destruct b.
  - rewrite Activate_completed. by destruct (Disabled g).
  - unfold Activate. destruct (Disabled g); [done|].
    destruct (1 <=? queue_isLocked g); [done|]. apply Hl.
Qed.

Lemma mock_installed_Activate_again saved resumed g :
  mock_installed saved g → mock_installed saved (Activate_again resumed g).
Proof.
  unfold Activate_again. revert g.
  induction resumed as [|b resumed IH]; intros g Hg; [done|].
  simpl. by apply IH, mock_installed_Activate.
Qed.

Lemma Deactivate_completed_default g :
  Disabled g = false →
  http_DefaultTransport (completed (Deactivate g)) = Transports_Initial g.
Proof.
  intros Hd. rewrite Deactivate_completed, Hd. unfold Deactivate_locked.
  destruct (1 <=? queue_isLocked g); simpl; by destruct (oldHTTPGlobals_client g).
Qed.

Lemma Disabled_Activate_again resumed g :
  Disabled (Activate_again resumed g) = Disabled g.
Proof.
  unfold Activate_again. revert g.
  induction resumed as [|b resumed IH]; intros g; [done|].
  cbn [foldl]. rewrite IH. destruct b.
  - rewrite Activate_completed. destruct (Disabled g) eqn:Hd; [done|].
    by rewrite (proj2 (proj2 (Activate_locked_fields _))).
  - unfold Activate. destruct (Disabled g) eqn:Hd; [done|].
    destruct (1 <=? queue_isLocked g); [done|]. cbn [reached].
    by rewrite (proj2 (proj2 (Activate_locked_fields _))).
Qed.

(** C6.  When it runs, [Activate] stores [http.DefaultTransport] in
    [Transports.Initial] only if it is not the default mock transport,
    and stores nothing when disabled.  So from globals where activation
    is not disabled and the mock is not installed: [Activate] saves the
    transport [http.DefaultTransport] holds and installs the mock; any
    run of further [Activate] calls, parked or let through, leaves
    [Transports.Initial] as saved; and [Deactivate] then puts back into
    [http.DefaultTransport] the very transport it held before the first
    of these calls. *)
Theorem Activate_saves_original_once :
  (∀ g, Transports_Initial (completed (Activate g)) =
          if Disabled g
             || bool_decide (http_DefaultTransport g = MockTripper (Transports_Default g))
          then Transports_Initial g else http_DefaultTransport g) ∧
  (∀ g, Disabled g = false →
        http_DefaultTransport g ≠ MockTripper (Transports_Default g) →
        let g1 := completed (Activate g) in
        http_DefaultTransport g1 = MockTripper (Transports_Default g) ∧
        Transports_Initial g1 = http_DefaultTransport g ∧
        ∀ resumed,
          let gn := Activate_again resumed g1 in
          Transports_Initial gn = Transports_Initial g1 ∧
          http_DefaultTransport (completed (Deactivate gn)) = http_DefaultTransport g).
Proof.
  split.
  - intros g. rewrite Activate_completed. destruct (Disabled g); [done|].
    by rewrite Activate_locked_Initial.
  - intros g Hd Hne g1.
    assert (mock_installed (http_DefaultTransport g) g1 ∧ Disabled g1 = false)
      as [[Hm Hi] Hd1].
    { subst g1. rewrite Activate_completed, Hd. split; [split|].
      - destruct (Activate_locked_fields (set_queue_isLocked
                    (if 1 <=? queue_isLocked g then 2 else 1) g)) as (-> & -> & _).
        done.
      - rewrite Activate_locked_Initial. simpl. by rewrite bool_decide_false.
      - by rewrite (proj2 (proj2 (Activate_locked_fields _))). }
    split; [|split]; [| done |].
    + rewrite Hm. f_equal. subst g1. rewrite Activate_completed, Hd.
      by rewrite (proj1 (proj2 (Activate_locked_fields _))).
    + intros resumed gn.
      destruct (mock_installed_Activate_again (http_DefaultTransport g) resumed g1)
        as [_ Hin]; [done|].
      split; [by rewrite Hi|].
      rewrite Deactivate_completed_default; [done|].
      subst gn. by rewrite Disabled_Activate_again.
Qed.

Lemma Activate_saves_original_once_witness :
  let g1 := completed (Activate reassigned_default) in
  http_DefaultTransport g1 = MockTripper 100 ∧
  Transports_Initial g1 = OtherTripper 2 ∧
  ∀ resumed,
    let gn := Activate_again resumed g1 in
    Transports_Initial gn = Transports_Initial g1 ∧
    http_DefaultTransport (completed (Deactivate gn)) = OtherTripper 2.
Proof.
  apply (proj2 Activate_saves_original_once reassigned_default).
  - reflexivity.
  - vm_compute. discriminate.
Defined.

Lemma client_Transport_set c t g c' :
  client_Transport (set_client_Transport c t g) c' =
    if decide (c = c') then t else client_Transport g c'.
Proof.
  unfold client_Transport, set_client_Transport. simpl.
  destruct (decide (c = c')) as [->|Hne].
  - by rewrite lookup_insert_eq.
  - by rewrite lookup_insert_ne.
Qed.

Lemma Deactivate_locked_client g c' :
  client_Transport (Deactivate_locked g) c' =
    match oldHTTPGlobals_client g with
    | Some c => if decide (c = c') then oldHTTPGlobals_transport g
                else client_Transport g c'
    | None => client_Transport g c'
    end.
Proof.
  unfold Deactivate_locked. simpl.
  destruct (oldHTTPGlobals_client g) as [c|]; [|done].
  by rewrite client_Transport_set.
Qed.

Lemma Deactivate_locked_record g :
  oldHTTPGlobals_client (Deactivate_locked g) = oldHTTPGlobals_client g ∧
  oldHTTPGlobals_transport (Deactivate_locked g) = oldHTTPGlobals_transport g ∧
  Transports_Initial (Deactivate_locked g) = Transports_Initial g ∧
  http_DefaultTransport (Deactivate_locked g) = Transports_Initial g ∧
  queue_isLocked (Deactivate_locked g) = queue_isLocked g ∧
  Disabled (Deactivate_locked g) = Disabled g.
Proof.
  unfold Deactivate_locked. simpl.
  destruct (oldHTTPGlobals_client g) eqn:Hc; simpl; rewrite ?Hc; repeat split.
Qed.

(** The gate apart, [Deactivate] is its locked part. *)
Lemma Deactivate_completed_gate g :
  Disabled g = false →
  ∃ g0, completed (Deactivate g) = Deactivate_locked g0 ∧
        http_DefaultTransport g0 = http_DefaultTransport g ∧
        Transports_Initial g0 = Transports_Initial g ∧
        oldHTTPGlobals_client g0 = oldHTTPGlobals_client g ∧
        oldHTTPGlobals_transport g0 = oldHTTPGlobals_transport g ∧
        clients g0 = clients g ∧
        Disabled g0 = Disabled g ∧
        (queue_isLocked g < 1 → queue_isLocked g0 = queue_isLocked g).
Proof.
  intros Hd. rewrite Deactivate_completed, Hd. eexists. split; [reflexivity|].
  destruct (Z.leb_spec 1 (queue_isLocked g)); repeat split; try done; lia.
Qed.

(** C7, as the code has it.  With a client recorded in [oldHTTPGlobals],
    [Deactivate] sets the [Transport] field of that client to the
    transport recorded with it and leaves the other clients alone.  The
    record itself stays: client and transport are still recorded after
    the call, and a later [Deactivate] sets the field of that client to
    the recorded transport again, whatever the field then holds.  The
    record is the one [ActivateNonDefault] makes: the client it is given
    and the transport that client had. *)
Theorem Deactivate_restores_client g c :
  Disabled g = false →
  oldHTTPGlobals_client g = Some c →
  let g' := completed (Deactivate g) in
  client_Transport g' c = oldHTTPGlobals_transport g ∧
  (∀ c', c' ≠ c → client_Transport g' c' = client_Transport g c') ∧
  oldHTTPGlobals_client g' = Some c ∧
  oldHTTPGlobals_transport g' = oldHTTPGlobals_transport g ∧
  (∀ t, client_Transport (completed (Deactivate (set_client_Transport c t g'))) c
        = oldHTTPGlobals_transport g) ∧
  (∀ g0, Disabled g0 = false →
         let g1 := completed (ActivateNonDefault c g0) in
         oldHTTPGlobals_client g1 = Some c ∧
         oldHTTPGlobals_transport g1 = client_Transport g0 c ∧
         client_Transport g1 c = MockTripper (Transports_Default g0) ∧
         client_Transport (completed (Deactivate g1)) c = client_Transport g0 c).
Proof.
  intros Hd Hc g'.
  destruct (Deactivate_completed_gate g Hd)
    as (g0 & Hg' & _ & _ & Hc0 & Ht0 & Hcl0 & Hd0 & _).
  fold g' in Hg'. rewrite <- Hc0 in Hc.
  destruct (Deactivate_locked_record g0) as (Hrc & Hrt & _ & _ & _ & Hrd).
  assert (∀ c', client_Transport g0 c' = client_Transport g c') as Hsame.
  { intros c'. unfold client_Transport. by rewrite Hcl0. }
  split; [|split; [|split; [|split; [|split]]]].
  - rewrite Hg', Deactivate_locked_client, Hc, decide_True by done. done.
  - intros c' Hne. rewrite Hg', Deactivate_locked_client, Hc, decide_False by done.
    apply Hsame.
  - by rewrite Hg', Hrc.
  - by rewrite Hg', Hrt.
  - intros t. rewrite Deactivate_completed.
    change (Disabled (set_client_Transport c t g')) with (Disabled g').
    rewrite Hg', Hrd, Hd0, Hd, <- Hg'.
    rewrite Deactivate_locked_client.
    assert (∀ g2, oldHTTPGlobals_client g2 = oldHTTPGlobals_client g' →
                  oldHTTPGlobals_transport g2 = oldHTTPGlobals_transport g' →
                  match oldHTTPGlobals_client g2 with
                  | Some c0 => if decide (c0 = c) then oldHTTPGlobals_transport g2
                               else client_Transport g2 c
                  | None => client_Transport g2 c
                  end = oldHTTPGlobals_transport g) as Hany.
    { intros g2 -> ->. rewrite Hg', Hrc, Hrt, Hc, decide_True by done. done. }
    by destruct (1 <=? _); apply Hany.
  - intros g1 Hd1 g2. subst g2. rewrite ActivateNonDefault_completed, Hd1.
    set (gq := set_queue_isLocked _ g1).
    assert (client_Transport gq c = client_Transport g1 c) as Hq by done.
    split; [done|]. split; [done|]. split.
    + unfold ActivateNonDefault_locked. by rewrite client_Transport_set, decide_True.
    + rewrite Deactivate_completed.
      change (Disabled (ActivateNonDefault_locked c gq)) with (Disabled g1).
      rewrite Hd1, Deactivate_locked_client.
      by destruct (1 <=? _); simpl; rewrite decide_True.
Qed.

Lemma Deactivate_restores_client_witness :
  let g := completed (ActivateNonDefault 1 custom_client) in
  let g' := completed (Deactivate g) in
  client_Transport g' 1 = OtherTripper 7 ∧
  (∀ c', c' ≠ 1%nat → client_Transport g' c' = client_Transport g c') ∧
  oldHTTPGlobals_client g' = Some 1%nat ∧
  oldHTTPGlobals_transport g' = OtherTripper 7 ∧
  (∀ t, client_Transport (completed (Deactivate (set_client_Transport 1 t g'))) 1
        = OtherTripper 7) ∧
  (∀ g0, Disabled g0 = false →
         let g1 := completed (ActivateNonDefault 1 g0) in
         oldHTTPGlobals_client g1 = Some 1%nat ∧
         oldHTTPGlobals_transport g1 = client_Transport g0 1 ∧
         client_Transport g1 1 = MockTripper (Transports_Default g0) ∧
         client_Transport (completed (Deactivate g1)) 1 = client_Transport g0 1).
Proof.
  apply (Deactivate_restores_client (completed (ActivateNonDefault 1 custom_client)) 1).
  - reflexivity.
  - reflexivity.
Defined.

(** C7, as the specification has it, fails: after [ActivateNonDefault]
    for the client at address 1 and a [Deactivate], the client is still
    recorded; when the program then gives that client another transport,
    the next [Deactivate] overwrites it. *)
Lemma Deactivate_keeps_record_counterexample :
  let g1 := completed (ActivateNonDefault 1 custom_client) in
  let g2 := completed (Deactivate g1) in
  let g3 := set_client_Transport 1 (OtherTripper 9) g2 in
  oldHTTPGlobals_client g2 ≠ None ∧
  client_Transport g3 1 = OtherTripper 9 ∧
  client_Transport (completed (Deactivate g3)) 1 = OtherTripper 7 ∧
  client_Transport (completed (Deactivate g3)) 1 ≠ client_Transport g3 1.
Proof. vm_compute. by repeat split. Qed.

(** C8, as the code has it.  [Deactivate] with the gate idle changes
    nothing when [http.DefaultTransport] is the transport saved in
    [Transports.Initial] and the recorded client, if there is one, has
    the transport recorded with it: the default transport, the saved
    one, the transport of every client and the gate stay as they were.
    That is how a [Deactivate] leaves the globals, so a second
    [Deactivate] right after a first changes nothing.  And whatever the
    globals, [Deactivate] never changes the transport saved in
    [Transports.Initial], neither up to where it returns or parks nor
    when run to its end. *)
Theorem Deactivate_inactive_noop :
  (∀ g, queue_isLocked g < 1 →
        http_DefaultTransport g = Transports_Initial g →
        (∀ c, oldHTTPGlobals_client g = Some c →
              client_Transport g c = oldHTTPGlobals_transport g) →
        let g' := completed (Deactivate g) in
        http_DefaultTransport g' = http_DefaultTransport g ∧
        Transports_Initial g' = Transports_Initial g ∧
        (∀ c, client_Transport g' c = client_Transport g c) ∧
        queue_isLocked g' = queue_isLocked g) ∧
  (∀ g, completed (Deactivate (completed (Deactivate g))) = completed (Deactivate g)) ∧
  (∀ g, Transports_Initial (reached (Deactivate g)) = Transports_Initial g ∧
        Transports_Initial (completed (Deactivate g)) = Transports_Initial g).
Proof.
  split; [|split]; cycle 2.
  { intros g. split.
    - unfold Deactivate. destruct (Disabled g); [done|].
      destruct (1 <=? queue_isLocked g); [destruct (queue_isLocked g =? 2)|];
        cbn [reached]; try done;
        by rewrite (proj1 (proj2 (proj2 (Deactivate_locked_record _)))).
    - rewrite Deactivate_completed. destruct (Disabled g); [done|].
      rewrite (proj1 (proj2 (proj2 (Deactivate_locked_record _)))).
      by destruct (1 <=? queue_isLocked g). }
  - intros g Hq Hdef Hcl g'. subst g'.
    destruct (Disabled g) eqn:Hd.
    { rewrite Deactivate_completed, Hd. by repeat split. }
    destruct (Deactivate_completed_gate g Hd)
      as (g0 & -> & _ & Hi0 & Hc0 & Ht0 & Hcl0 & _ & Hq0).
    destruct (Deactivate_locked_record g0) as (_ & _ & Hri & Hrd & Hrq & _).
    split; [by rewrite Hrd, Hi0|]. split; [by rewrite Hri|]. split.
    + intros c. rewrite Deactivate_locked_client, Hc0, Ht0.
      assert (client_Transport g0 c = client_Transport g c) as ->
        by (unfold client_Transport; by rewrite Hcl0).
      destruct (oldHTTPGlobals_client g) as [c0|] eqn:Hrec; [|done].
      destruct (decide (c0 = c)) as [->|]; [|done]. symmetry. by apply Hcl.
    + rewrite Hrq. by apply Hq0.
  - intros g. rewrite (Deactivate_completed (completed _)).
    rewrite Deactivate_completed. destruct (Disabled g) eqn:Hd; [by rewrite Hd|].
    set (g0 := if 1 <=? queue_isLocked g then set_queue_isLocked 0 g else g).
    assert (Disabled g0 = false ∧ queue_isLocked g0 < 1) as [Hd0 Hq0].
    { subst g0. destruct (Z.leb_spec 1 (queue_isLocked g)); simpl; split; try done; lia. }
    destruct (Deactivate_locked_record g0) as (_ & _ & _ & _ & -> & ->).
    rewrite Hd0. destruct (Z.leb_spec 1 (queue_isLocked g0)); [lia|].
    unfold Deactivate_locked. simpl.
    destruct (oldHTTPGlobals_client g0) as [c|] eqn:Hc; simpl; rewrite Hc; [|done].
    unfold set_client_Transport. simpl. by rewrite insert_insert_eq.
Qed.

Lemma Deactivate_inactive_noop_witness :
  let g := completed (Deactivate (completed (ActivateNonDefault 1 custom_client))) in
  let g' := completed (Deactivate g) in
  http_DefaultTransport g' = http_DefaultTransport g ∧
  Transports_Initial g' = Transports_Initial g ∧
  (∀ c, client_Transport g' c = client_Transport g c) ∧
  queue_isLocked g' = queue_isLocked g.
Proof.
  apply (proj1 Deactivate_inactive_noop
           (completed (Deactivate (completed (ActivateNonDefault 1 custom_client))))).
  - vm_compute. reflexivity.
  - reflexivity.
  - intros c [= <-]. reflexivity.
Defined.

(** C8, as the specification has it, fails: in a process that never
    activated anything (gate idle, no mock installed, no client
    recorded) but assigned [http.DefaultTransport] itself, [Deactivate]
    replaces that transport by the one saved at start. *)
Lemma Deactivate_inactive_counterexample :
  queue_isLocked reassigned_default = 0 ∧
  http_DefaultTransport reassigned_default
    ≠ MockTripper (Transports_Default reassigned_default) ∧
  oldHTTPGlobals_client reassigned_default = None ∧
  http_DefaultTransport reassigned_default = OtherTripper 2 ∧
  http_DefaultTransport (completed (Deactivate reassigned_default)) = OtherTripper 0 ∧
  http_DefaultTransport (completed (Deactivate reassigned_default))
    ≠ http_DefaultTransport reassigned_default.
Proof. vm_compute. by repeat split. Qed.

End Activation.

(** ** More on the transport's methods *)

Section Methods.
Implicit Types (m : MockTransport) (req : Request) (r : Responder) (key : string).

(** X1.  The methods that only look things up write no field of the
    transport.  A [RoundTrip] locks, reads and calls one responder, and
    makes no write, whatever the request and whichever responder
    answers; [responderForKey], [Len] and [HasNoResponder] make no write
    either and leave the transport as it is. *)
Theorem lookups_write_nothing m :
  (∀ req, count_events is_write (trace_of (RoundTrip req) m) = 0%nat) ∧
  (∀ key, count_events is_write (trace_of (responderForKey key) m) = 0%nat ∧
          state_after (responderForKey key) m = m) ∧
  (count_events is_write (trace_of Len m) = 0%nat ∧ state_after Len m = m) ∧
  (count_events is_write (trace_of HasNoResponder m) = 0%nat ∧
   state_after HasNoResponder m = m).
Proof.
  split; [|by repeat split].
  intros req. unfold trace_of. rewrite RoundTrip_run.
  assert (count_events is_write (lookup_trace m req) = 0%nat) as Hl.
  { unfold lookup_trace. by destruct (_ && _). }
  destruct (chosen m req); cbn [snd]; unfold count_events in *;
    rewrite List.filter_app, length_app, Hl; [done|].
  by destruct (is_nil (noResponder m)).
Qed.

(** X2.  [Reset] leaves the transport that [NewMockTransport] makes,
    whatever was registered: [Len] is 0, [HasNoResponder] is false, and
    every request gets no response and [NoResponderFound]. *)
Theorem Reset_empties m :
  state_after Reset m = NewMockTransport ∧
  result_of Len (state_after Reset m) = 0%nat ∧
  result_of HasNoResponder (state_after Reset m) = false ∧
  ∀ req, result_of (RoundTrip req) (state_after Reset m)
         = (None, Some NoResponderFound).
Proof.
  assert (state_after Reset m = NewMockTransport) as -> by reflexivity.
  split; [done|]. split; [done|]. split; [done|].
  intros req. rewrite RoundTrip_result. unfold chosen, lookup_responder. simpl.
  rewrite !lookup_empty. simpl. by destruct (strings.Contains _ _).
Qed.

(** X3.  [Len] after [RegisterResponder]: one more than before when the
    key of the method and URL was not in the registry, the same when it
    was; the responder registered, nil or not, makes no difference. *)
Theorem Len_RegisterResponder m method url r :
  result_of Len (state_after (RegisterResponder method url r) m) =
    if decide (is_Some (responders m !! (method +:+ " " +:+ url)))
    then result_of Len m else S (result_of Len m).
Proof.
  rewrite !Len_result, RegisterResponder_state. simpl.
  rewrite map_size_insert.
  destruct (responders m !! (method +:+ " " +:+ url)) as [old|] eqn:Hk.
  - rewrite decide_True by eauto. done.
  - rewrite decide_False; [done|]. by intros [? ?].
Qed.

(** X4.  [RegisterNoResponder] touches [noResponder] only:
    [HasNoResponder] then tells whether the responder given was not nil,
    [Len] and every lookup in the registry are as before.  And
    [RegisterResponder] touches the registry only: [HasNoResponder] is
    as before. *)
Theorem RegisterNoResponder_frame m r :
  let m' := state_after (RegisterNoResponder r) m in
  result_of HasNoResponder m' = negb (is_nil r) ∧
  result_of Len m' = result_of Len m ∧
  (∀ key, result_of (responderForKey key) m' = result_of (responderForKey key) m) ∧
  (∀ method url r',
     result_of HasNoResponder (state_after (RegisterResponder method url r') m)
     = result_of HasNoResponder m).
Proof.
  simpl. split; [done|]. split; [done|]. split; [|done].
  intros key. by rewrite !responderForKey_result.
Qed.

(** X5.  Registering under one key changes nothing for a request whose
    exact key is another and whose stripped key, if its URL has a "?",
    is another too: it gets what it got before. *)
Theorem RegisterResponder_other_request m method url r req :
  Method req +:+ " " +:+ URL_String req ≠ method +:+ " " +:+ url →
  (strings.Contains (URL_String req) "?" = true →
   Method req +:+ " " +:+ hd EmptyString (strings.Split (URL_String req) "?")
     ≠ method +:+ " " +:+ url) →
  result_of (RoundTrip req) (state_after (RegisterResponder method url r) m)
  = result_of (RoundTrip req) m.
Proof.
  intros He Hs. rewrite !RoundTrip_result, RegisterResponder_state.
  unfold chosen, fallback, lookup_responder, exact_key, stripped_key. simpl.
  rewrite lookup_insert_ne by done.
  destruct (strings.Contains (URL_String req) "?"); [|done].
  by rewrite (lookup_insert_ne _ _ _ _ (not_eq_sym (Hs eq_refl))).
Qed.

Lemma RegisterResponder_other_request_witness :
  result_of (RoundTrip (GET "http://x/b?q=1"))
    (state_after (RegisterResponder "POST" "http://x/b" (Some refused)) one_responder)
  = result_of (RoundTrip (GET "http://x/b?q=1")) one_responder.
Proof.
  apply (RegisterResponder_other_request one_responder "POST" "http://x/b"
           (Some refused) (GET "http://x/b?q=1")).
  - vm_compute. discriminate.
  - intros _. vm_compute. discriminate.
Defined.

(** X6.  Registrations under different keys do not depend on their
    order: either order leaves the same transport. *)
Theorem RegisterResponder_commute m method1 url1 r1 method2 url2 r2 :
  method1 +:+ " " +:+ url1 ≠ method2 +:+ " " +:+ url2 →
  state_after (RegisterResponder method2 url2 r2)
    (state_after (RegisterResponder method1 url1 r1) m)
  = state_after (RegisterResponder method1 url1 r1)
      (state_after (RegisterResponder method2 url2 r2) m).
Proof.
  intros Hne. rewrite !RegisterResponder_state. simpl. f_equal.
  by apply insert_insert_ne.
Qed.

Lemma RegisterResponder_commute_witness :
  state_after (RegisterResponder "POST" "http://x/a" (Some refused))
    (state_after (RegisterResponder "GET" "http://x/a" (Some hello)) NewMockTransport)
  = state_after (RegisterResponder "GET" "http://x/a" (Some hello))
      (state_after (RegisterResponder "POST" "http://x/a" (Some refused))
         NewMockTransport).
Proof.
  apply (RegisterResponder_commute NewMockTransport
           "GET" "http://x/a" (Some hello) "POST" "http://x/a" (Some refused)).
  vm_compute. discriminate.
Defined.

End Methods.

(** ** More on what a run of a method does *)

Section Runs.
Implicit Types (m : MockTransport) (req : Request) (r : Responder) (key : string).

Lemma count_events_app p (t1 t2 : list event) :
  count_events p (t1 ++ t2) = (count_events p t1 + count_events p t2)%nat.
Proof. unfold count_events. by rewrite List.filter_app, length_app. Qed.

Lemma lookup_trace_counts m req :
  count_events is_call (lookup_trace m req) = 0%nat ∧
  count_events is_registry_read (lookup_trace m req) =
    (if is_nil (lookup_responder m (exact_key req))
        && strings.Contains (URL_String req) "?" then 2 else 1)%nat.
Proof. unfold lookup_trace. by destruct (_ && _). Qed.

(** X7.  A [RoundTrip] calls exactly one responder, be it one from the
    registry, [noResponder] or [ConnectionFailure], and never two.  It
    looks into the registry once, or twice when the first lookup gave
    nothing and the URL has a "?"; never more. *)
Theorem RoundTrip_one_call m req :
  count_events is_call (trace_of (RoundTrip req) m) = 1%nat ∧
  count_events is_registry_read (trace_of (RoundTrip req) m) =
    (if is_nil (result_of (responderForKey (Method req +:+ " " +:+ URL_String req)) m)
        && strings.Contains (URL_String req) "?" then 2 else 1)%nat.
Proof.
  rewrite responderForKey_result. fold (exact_key req).
  destruct (lookup_trace_counts m req) as [Hc Hr].
  unfold trace_of. rewrite RoundTrip_run.
  destruct (chosen m req); cbn [snd]; rewrite !count_events_app, Hc, Hr;
    (split; [done|]); unfold count_events; simpl; lia.
Qed.

Lemma held_after_lookup m req t :
  held_after false (lookup_trace m req ++ t) = held_after false t.
Proof. unfold lookup_trace. by destruct (_ && _). Qed.

(** X8.  Every method of the transport that touches its fields does so
    with the mutex held, takes the mutex only when it is free, and has
    released it when it returns: [responderForKey], [RegisterResponder],
    [RegisterNoResponder], [Reset], [Len], [HasNoResponder] and
    [RoundTrip].  [CancelRequest] does nothing at all. *)
Theorem methods_lock_discipline m :
  (∀ key, lock_disciplined (responderForKey key) m) ∧
  (∀ method url r, lock_disciplined (RegisterResponder method url r) m) ∧
  (∀ r, lock_disciplined (RegisterNoResponder r) m) ∧
  lock_disciplined Reset m ∧
  lock_disciplined Len m ∧
  lock_disciplined HasNoResponder m ∧
  (∀ req, lock_disciplined (RoundTrip req) m) ∧
  (∀ req, CancelRequest req m = (tt, m, [])).
Proof.
  unfold lock_disciplined. repeat split.
  - unfold trace_of. rewrite RoundTrip_run.
    destruct (chosen m req); cbn [snd]; rewrite accesses_locked_lookup; [done|].
    by destruct (is_nil (noResponder m)).
  - unfold trace_of. rewrite RoundTrip_run.
    by destruct (chosen m req); cbn [snd]; rewrite held_after_lookup.
Qed.

End Runs.

(** ** More on activation and deactivation *)

Section Sessions.
Implicit Types (g : Globals) (c : nat) (t : RoundTripper).

Lemma after_calls_cons call (b : bool) calls g :
  after_calls ((call, b) :: calls) g =
    after_calls calls
      (if b then completed (run_call call g) else reached (run_call call g)).
Proof. reflexivity. Qed.

(** X9.  With [Disabled] true the three activation functions return at
    once and change nothing, the gate included; so does any run of
    calls of them. *)
Theorem Disabled_changes_nothing g :
  Disabled g = true →
  Activate g = Returned g ∧
  (∀ c, ActivateNonDefault c g = Returned g) ∧
  Deactivate g = Returned g ∧
  ∀ calls, after_calls calls g = g.
Proof.
  intros Hd.
  assert (∀ call, run_call call g = Returned g) as Hrun.
  { intros [|c|]; simpl; unfold Activate, ActivateNonDefault, Deactivate;
      by rewrite Hd. }
  split; [apply (Hrun CallActivate)|].
  split; [intros c; apply (Hrun (CallActivateNonDefault c))|].
  split; [apply (Hrun CallDeactivate)|].
  intros calls. induction calls as [|[call b] calls IH]; [done|].
  rewrite after_calls_cons, Hrun. by destruct b.
Qed.

Lemma Disabled_changes_nothing_witness :
  let g := set_http_DefaultTransport (OtherTripper 2)
             {| http_DefaultTransport := OtherTripper 0;
                Transports_Default := 100;
                Transports_Initial := OtherTripper 0;
                oldHTTPGlobals_transport := NilTripper;
                oldHTTPGlobals_client := None;
                clients := ∅;
                queue_isLocked := 0;
                env_Disabled := true |} in
  Activate g = Returned g ∧
  (∀ c, ActivateNonDefault c g = Returned g) ∧
  Deactivate g = Returned g ∧
  ∀ calls, after_calls calls g = g.
Proof. apply Disabled_changes_nothing. reflexivity. Defined.

(** X10.  The gate, from idle and not disabled.  The first [Activate]
    returns and leaves the counter at 1.  While it is 1, a further
    [Activate] or [ActivateNonDefault] sets it to 2 and parks before
    touching anything else, and [Deactivate] sets it to 0 and returns.
    Once it is 2, [Deactivate] sets it to 0 and parks on the send to
    the waiting caller; the part of [Activate] that the waiting caller
    then runs leaves the counter as it is. *)
Theorem gate_session g :
  Disabled g = false → queue_isLocked g = 0 →
  let g1 := set_queue_isLocked 1 g in
  Activate g = Returned (Activate_locked g1) ∧
  queue_isLocked (Activate_locked g1) = 1 ∧
  (∀ g', Disabled g' = false → queue_isLocked g' = 1 →
     Activate g' = Parked (set_queue_isLocked 2 g') Activate_locked ∧
     (∀ c, ActivateNonDefault c g' =
             Parked (set_queue_isLocked 2 g') (ActivateNonDefault_locked c)) ∧
     Deactivate g' = Returned (Deactivate_locked (set_queue_isLocked 0 g')) ∧
     Deactivate (set_queue_isLocked 2 g') =
       Parked (set_queue_isLocked 0 (set_queue_isLocked 2 g')) Deactivate_locked) ∧
  (∀ g', queue_isLocked (Activate_locked g') = queue_isLocked g' ∧
         queue_isLocked (Deactivate_locked g') = queue_isLocked g').
Proof.
  intros Hd Hq g1. split; [|split; [|split]].
  - unfold Activate. by rewrite Hd, Hq.
  - unfold Activate_locked. by destruct (bool_decide _).
  - intros g' Hd' Hq'. unfold Activate, ActivateNonDefault, Deactivate.
    change (Disabled (set_queue_isLocked 2 g')) with (Disabled g').
    rewrite Hd', Hq'. simpl. done.
  - intros g'. split.
    + unfold Activate_locked. by destruct (bool_decide _).
    + apply Deactivate_locked_record.
Qed.

Lemma gate_session_witness :
  let g := initial_globals (OtherTripper 0) 100 in
  let g1 := set_queue_isLocked 1 g in
  Activate g = Returned (Activate_locked g1) ∧
  queue_isLocked (Activate_locked g1) = 1 ∧
  (∀ g', Disabled g' = false → queue_isLocked g' = 1 →
     Activate g' = Parked (set_queue_isLocked 2 g') Activate_locked ∧
     (∀ c, ActivateNonDefault c g' =
             Parked (set_queue_isLocked 2 g') (ActivateNonDefault_locked c)) ∧
     Deactivate g' = Returned (Deactivate_locked (set_queue_isLocked 0 g')) ∧
     Deactivate (set_queue_isLocked 2 g') =
       Parked (set_queue_isLocked 0 (set_queue_isLocked 2 g')) Deactivate_locked) ∧
  (∀ g', queue_isLocked (Activate_locked g') = queue_isLocked g' ∧
         queue_isLocked (Deactivate_locked g') = queue_isLocked g').
Proof.
  apply (gate_session (initial_globals (OtherTripper 0) 100)); reflexivity.
Defined.

Lemma controller_ok_gate v g :
  0 ≤ v ≤ 2 → controller_ok g → controller_ok (set_queue_isLocked v g).
Proof. intros Hv (Hi & Hd & _). split; [done|]. split; [done|]. simpl. lia. Qed.

Lemma controller_ok_Activate_locked g :
  controller_ok g → controller_ok (Activate_locked g).
Proof.
  intros (Hi & Hd & Hq). unfold Activate_locked.
  destruct (decide (http_DefaultTransport g = MockTripper (Transports_Default g)))
    as [He|Hne].
  - rewrite bool_decide_false by (intros Hx; exact (Hx He)).
    split; [done|]. split; [by right|done].
  - rewrite bool_decide_true by done. split; [done|]. split; [by right|done].
Qed.

Lemma controller_ok_ActivateNonDefault_locked c g :
  controller_ok g → controller_ok (ActivateNonDefault_locked c g).
Proof. by intros (Hi & Hd & Hq). Qed.

Lemma controller_ok_Deactivate_locked g :
  controller_ok g → controller_ok (Deactivate_locked g).
Proof.
  intros (Hi & Hd & Hq). unfold controller_ok.
  destruct (Deactivate_locked_record g) as (_ & _ & -> & -> & -> & _).
  unfold Deactivate_locked.
  assert (∀ g', Transports_Default
                  match oldHTTPGlobals_client g' with
                  | Some client => set_client_Transport client (oldHTTPGlobals_transport g') g'
                  | None => g'
                  end = Transports_Default g') as ->
    by (intros g'; by destruct (oldHTTPGlobals_client g')).
  split; [done|]. split; [by left|done].
Qed.

Lemma fixed_fields_locked g :
  (Transports_Default (Activate_locked g) = Transports_Default g ∧
   Disabled (Activate_locked g) = Disabled g) ∧
  (∀ c, Transports_Default (ActivateNonDefault_locked c g) = Transports_Default g ∧
        Disabled (ActivateNonDefault_locked c g) = Disabled g) ∧
  (Transports_Default (Deactivate_locked g) = Transports_Default g ∧
   Disabled (Deactivate_locked g) = Disabled g).
Proof.
  split; [|split].
  - unfold Activate_locked. by destruct (bool_decide _).
  - done.
  - unfold Deactivate_locked. simpl. by destruct (oldHTTPGlobals_client g).
Qed.

Lemma controller_run_step step g :
  controller_ok g →
  controller_ok (run_step step g) ∧
  Transports_Default (run_step step g) = Transports_Default g ∧
  Disabled (run_step step g) = Disabled g.
Proof.
  intros Hok. destruct step as [v| |c|]; cbn [run_step].
  - split; [|done]. apply controller_ok_gate; [by destruct v|done].
  - split; [by apply controller_ok_Activate_locked|].
    apply (proj1 (fixed_fields_locked g)).
  - split; [by apply controller_ok_ActivateNonDefault_locked|done].
  - split; [by apply controller_ok_Deactivate_locked|].
    apply (proj2 (proj2 (fixed_fields_locked g))).
Qed.

(** X11.  What the globals keep through every interleaving of calls of
    the activation functions.  Each call is made of indivisible steps:
    no step when disabled, else a store of 0, 1 or 2 to the gate counter
    and the locked part of the function, the latter at once or, for a
    call that parks, when the call is let through.  Whatever the list of
    such steps, from globals where the transport saved as the original
    is not the mock, [http.DefaultTransport] is the saved transport or
    the mock and the counter is within 0 to 2: all that still holds
    afterwards, [Transports.Default] and [Disabled] are what they were,
    and the locked part of [Deactivate], run then, leaves
    [http.DefaultTransport] other than the mock. *)
Theorem controller_invariant :
  (∀ steps g,
     controller_ok g →
     let g' := after_steps steps g in
     controller_ok g' ∧
     Transports_Default g' = Transports_Default g ∧
     Disabled g' = Disabled g ∧
     http_DefaultTransport (Deactivate_locked g')
       ≠ MockTripper (Transports_Default g)) ∧
  (∀ g,
     (Activate g = Returned g ∨
      Activate g = Returned (after_steps [StepStore Store1; StepActivate] g) ∨
      Activate g = Parked (after_steps [StepStore Store2] g) (run_step StepActivate)) ∧
     (∀ c, ActivateNonDefault c g = Returned g ∨
           ActivateNonDefault c g
             = Returned (after_steps [StepStore Store1; StepActivateNonDefault c] g) ∨
           ActivateNonDefault c g
             = Parked (after_steps [StepStore Store2] g)
                 (run_step (StepActivateNonDefault c))) ∧
     (Deactivate g = Returned g ∨
      Deactivate g = Returned (after_steps [StepDeactivate] g) ∨
      Deactivate g = Returned (after_steps [StepStore Store0; StepDeactivate] g) ∨
      Deactivate g = Parked (after_steps [StepStore Store0] g) (run_step StepDeactivate))).
Proof.
  split.
  - intros steps g Hok g'.
    assert (controller_ok g' ∧ Transports_Default g' = Transports_Default g ∧
            Disabled g' = Disabled g) as (Hok' & Hdef & Hdis).
    { subst g'. revert g Hok. induction steps as [|step steps IH]; intros g Hok.
      - done.
      - destruct (controller_run_step step g Hok) as (Hs & <- & <-).
        by apply (IH (run_step step g)). }
    split; [done|]. split; [done|]. split; [done|].
    destruct (Deactivate_locked_record g') as (_ & _ & _ & -> & _).
    rewrite <- Hdef. apply Hok'.
  - intros g. unfold Activate, ActivateNonDefault, Deactivate.
    destruct (Disabled g).
    { split; [by left|]. split; [by left|by left]. }
    destruct (1 <=? queue_isLocked g).
    + split; [by right; right|]. split; [by right; right|].
      destruct (queue_isLocked g =? 2); [by right; right; right|by right; right; left].
    + split; [by right; left|]. split; [by right; left|by right; left].
Qed.

(** A run of the program: one goroutine activates and a second parks in
    [Activate]; the first deactivates, storing 0 and sending; the second,
    let through, runs its locked part before the first runs the locked
    part of [Deactivate]. *)
Lemma controller_invariant_witness :
  let g' := after_steps [StepStore Store1; StepActivate; StepStore Store2;
                         StepStore Store0; StepActivate; StepDeactivate]
              (initial_globals (OtherTripper 0) 100) in
  controller_ok g' ∧
  Transports_Default g' = 100%nat ∧
  Disabled g' = false ∧
  http_DefaultTransport (Deactivate_locked g') ≠ MockTripper 100.
Proof.
  apply (proj1 controller_invariant
           [StepStore Store1; StepActivate; StepStore Store2;
            StepStore Store0; StepActivate; StepDeactivate]
           (initial_globals (OtherTripper 0) 100)).
  split; [discriminate|]. split; [by left|]. vm_compute. by split.
Defined.

End Sessions.

(** ** What the activation functions leave alone, and the package-level
    functions *)

Section Frames.
Implicit Types (g : Globals) (c : nat) (p : Package).

(** X12.  [Activate] touches neither the clients nor the record of a
    redirected client; [ActivateNonDefault] touches neither
    [http.DefaultTransport] nor the transport saved as the original, and
    of the clients only the one it is given. *)
Theorem activation_frames g :
  (let g' := completed (Activate g) in
   clients g' = clients g ∧
   oldHTTPGlobals_client g' = oldHTTPGlobals_client g ∧
   oldHTTPGlobals_transport g' = oldHTTPGlobals_transport g) ∧
  (∀ c, let g' := completed (ActivateNonDefault c g) in
        http_DefaultTransport g' = http_DefaultTransport g ∧
        Transports_Initial g' = Transports_Initial g ∧
        ∀ c', c' ≠ c → client_Transport g' c' = client_Transport g c').
Proof.
  split.
  - rewrite Activate_completed. destruct (Disabled g); [done|].
    unfold Activate_locked. by destruct (bool_decide _).
  - intros c. rewrite ActivateNonDefault_completed. destruct (Disabled g); [done|].
    split; [done|]. split; [done|]. intros c' Hne.
    unfold ActivateNonDefault_locked. by rewrite client_Transport_set, decide_False.
Qed.

(** X13.  The record of a redirected client holds one client.  When
    [ActivateNonDefault] runs for a second client while the first is
    still redirected, the [Deactivate] that follows gives the second
    client its transport back and leaves the first with the mock. *)
Theorem ActivateNonDefault_latest_only g c1 c2 :
  Disabled g = false → c1 ≠ c2 →
  let g2 := completed (ActivateNonDefault c2 (completed (ActivateNonDefault c1 g))) in
  oldHTTPGlobals_client g2 = Some c2 ∧
  client_Transport (completed (Deactivate g2)) c2 = client_Transport g c2 ∧
  client_Transport (completed (Deactivate g2)) c1 = MockTripper (Transports_Default g).
Proof.
  intros Hd Hne g2. subst g2.
  set (g1 := completed (ActivateNonDefault c1 g)).
  assert (Disabled g1 = false ∧ Transports_Default g1 = Transports_Default g ∧
          client_Transport g1 c1 = MockTripper (Transports_Default g) ∧
          client_Transport g1 c2 = client_Transport g c2) as (Hd1 & Hdef & Hc1 & Hc2).
  { subst g1. rewrite ActivateNonDefault_completed, Hd.
    unfold ActivateNonDefault_locked. rewrite !client_Transport_set.
    rewrite decide_True, decide_False by done. by repeat split. }
  rewrite ActivateNonDefault_completed, Hd1.
  set (gq := set_queue_isLocked _ g1).
  assert (Disabled (ActivateNonDefault_locked c2 gq) = false) as Hd2 by done.
  rewrite Deactivate_completed, Hd2. split; [done|].
  rewrite !Deactivate_locked_client.
  assert (∀ v, oldHTTPGlobals_client (set_queue_isLocked v (ActivateNonDefault_locked c2 gq))
               = Some c2) as Hrec by done.
  assert (oldHTTPGlobals_client (ActivateNonDefault_locked c2 gq) = Some c2) as Hrec' by done.
  destruct (1 <=? queue_isLocked (ActivateNonDefault_locked c2 gq)).
  - rewrite Hrec, decide_True, decide_False by done. split; [done|].
    change (client_Transport (ActivateNonDefault_locked c2 gq) c1 = MockTripper (Transports_Default g)).
    unfold ActivateNonDefault_locked. by rewrite client_Transport_set, decide_False.
  - rewrite Hrec', decide_True, decide_False by done. split; [done|].
    unfold ActivateNonDefault_locked. by rewrite client_Transport_set, decide_False.
Qed.

Lemma ActivateNonDefault_latest_only_witness :
  let g2 := completed (ActivateNonDefault 2
                         (completed (ActivateNonDefault 1 custom_client))) in
  oldHTTPGlobals_client g2 = Some 2%nat ∧
  client_Transport (completed (Deactivate g2)) 2 = client_Transport custom_client 2 ∧
  client_Transport (completed (Deactivate g2)) 1 = MockTripper 100.
Proof.
  apply (ActivateNonDefault_latest_only custom_client 1 2).
  - reflexivity.
  - discriminate.
Defined.

(** X14.  The package-level [RegisterResponder], [RegisterNoResponder]
    and [Reset] do to the default mock transport what the methods of the
    same names do and leave the globals of activation alone.
    [DeactivateAndReset], run to its end, leaves the globals as
    [Deactivate] does and the default mock transport as
    [NewMockTransport] makes it; that holds with [Disabled] true as
    well, where the globals stay as they are and the registrations are
    dropped all the same. *)
Theorem package_functions p :
  (∀ method url r,
     globals (Facade.RegisterResponder method url r p) = globals p ∧
     default_mock (Facade.RegisterResponder method url r p)
       = state_after (RegisterResponder method url r) (default_mock p)) ∧
  (∀ r,
     globals (Facade.RegisterNoResponder r p) = globals p ∧
     default_mock (Facade.RegisterNoResponder r p)
       = state_after (RegisterNoResponder r) (default_mock p)) ∧
  (globals (Facade.Reset p) = globals p ∧
   default_mock (Facade.Reset p) = NewMockTransport) ∧
  (let p' := package_completed (Facade.DeactivateAndReset p) in
   globals p' = completed (Deactivate (globals p)) ∧
   default_mock p' = NewMockTransport ∧
   (Disabled (globals p) = true → globals p' = globals p)).
Proof.
  split; [done|]. split; [done|]. split; [done|].
  unfold Facade.DeactivateAndReset.
  assert (Disabled (globals p) = true → Deactivate (globals p) = Returned (globals p))
    as Hdis by (intros Hd; unfold Deactivate; by rewrite Hd).
  destruct (Deactivate (globals p)) as [g|g rest] eqn:Hdeact; simpl.
  - split; [done|]. split; [done|]. intros Hd. specialize (Hdis Hd). congruence.
  - split; [done|]. split; [done|]. intros Hd. specialize (Hdis Hd). congruence.
Qed.

(** X15.  In a process where nothing is activated, the gate is idle,
    [http.DefaultTransport] is the transport saved as the original and
    no client is recorded, [Activate] followed by [Deactivate] gives
    back the globals exactly as they were; in between, the mock is
    installed. *)
Theorem Activate_Deactivate_round_trip g :
  Disabled g = false →
  queue_isLocked g = 0 →
  http_DefaultTransport g = Transports_Initial g →
  http_DefaultTransport g ≠ MockTripper (Transports_Default g) →
  oldHTTPGlobals_client g = None →
  ∃ g1, Activate g = Returned g1 ∧
        http_DefaultTransport g1 = MockTripper (Transports_Default g) ∧
        Deactivate g1 = Returned g.
Proof.
  intros Hd Hq Hdef Hne Hrec. eexists. split; [|split].
  - unfold Activate. rewrite Hd, Hq. reflexivity.
  - unfold Activate_locked. by destruct (bool_decide _).
  - unfold Activate_locked. rewrite bool_decide_true by done.
    unfold Deactivate, Deactivate_locked, Disabled in *.
    destruct g; simpl in *. by subst.
Qed.

Lemma Activate_Deactivate_round_trip_witness :
  ∃ g1, Activate (initial_globals (OtherTripper 0) 100) = Returned g1 ∧
        http_DefaultTransport g1 = MockTripper 100 ∧
        Deactivate g1 = Returned (initial_globals (OtherTripper 0) 100).
Proof.
  apply (Activate_Deactivate_round_trip (initial_globals (OtherTripper 0) 100));
    try reflexivity.
  discriminate.
Defined.

End Frames.
